(** * tf_classification: record decoder and model exporter

    A shallow embedding of

    - [preprocessing/decode_example.py]: [decode_serialized_example], and
    - [export.py]: [export] (with its nested [preprocess_image]).

    Both files are Python scripts that drive TensorFlow 1.x in graph mode.
    A TensorFlow call builds a node of a dataflow graph and returns a symbolic
    tensor; the embedding therefore represents tensors by the node that
    produces them.  Python dictionaries are finite maps, Python exceptions
    are the [Raise] outcome of an error monad, and the file system the
    exporter writes to is explicit state. *)

From Stdlib Require Import Ascii.
From stdpp Require Import base option list strings gmap fin_maps pretty.

Local Open Scope string_scope.

(** ** Python exceptions and the error monad *)

Inductive exn :=
  | KeyError (key : string)
  | AttributeError (attr : string)
  | TypeError (msg : string)
  | ValueError (msg : string)
  | AssertionError (msg : string)
  | UnboundLocalError (var : string)
  | FrameworkError (msg : string)
  | OSError (msg : string).

Inductive result (A : Type) :=
  | Ok (a : A)
  | Raise (e : exn).
Arguments Ok {A} a.
Arguments Raise {A} e.

#[global] Instance result_ret : MRet result := λ A a, Ok a.
#[global] Instance result_bind : MBind result := λ A B f r,
  match r with
  | Ok a => f a
  | Raise e => Raise e
  end.

Definition is_ok {A} (r : result A) : bool :=
  match r with Ok _ => true | Raise _ => false end.

(** ** The record decoder, [preprocessing/decode_example.py] *)

Module DecodeExample.

Inductive dtype := int64 | float32 | tf_string.

(** [tf.FixedLenFeature(shape, dtype)] and [tf.VarLenFeature(dtype=dtype)]. *)
Inductive feature_spec :=
  | FixedLenFeature (shape : list nat) (dt : dtype)
  | VarLenFeature (dt : dtype).

(** Graph nodes.  [Serialized] is the [serialized_example] argument, the
    [Parse...] nodes are the outputs of the [tf.parse_single_example] node
    for one key, [DecodeJpeg] is [tf.image.decode_jpeg]. *)
Inductive tensor :=
  | Serialized (payload : string)
  | ParseDense (ex : tensor) (key : string) (shape : list nat) (dt : dtype)
  | ParseSparseIndices (ex : tensor) (key : string)
  | ParseSparseValues (ex : tensor) (key : string) (dt : dtype)
  | ParseSparseShape (ex : tensor) (key : string)
  | DecodeJpeg (contents : tensor) (channels : nat).

(** The Python objects the decoder stores in its dictionaries: a [tf.Tensor]
    or a [tf.SparseTensor] with its three component tensors. *)
Inductive value :=
  | Tensor (t : tensor)
  | SparseTensor (indices values dense_shape : tensor).

(** Rank of the tensor a node produces: parsed fixed-length slots have the
    shape of their spec, the values of a sparse tensor are a flat vector,
    its indices a matrix, a decoded image is height x width x channels. *)
Definition rank (t : tensor) : nat :=
  match t with
  | Serialized _ => 0
  | ParseDense _ _ shape _ => length shape
  | ParseSparseIndices _ _ => 2
  | ParseSparseValues _ _ _ => 1
  | ParseSparseShape _ _ => 1
  | DecodeJpeg _ _ => 3
  end.

(** Size of the channel dimension of a decoded image whose file stores
    [stored] channels: [channels=0] keeps the stored number, any other
    value of the [channels] argument is the number of channels put out. *)
Definition channels_of (stored : nat) (v : value) : option nat :=
  match v with
  | Tensor (DecodeJpeg _ channels) =>
      Some (if Nat.eqb channels 0 then stored else channels)
  | _ => None
  end.

(** The dictionary literal of lines 18-46, in source order. *)
Definition schema_items : list (string * feature_spec) :=
  [ ("image/height", FixedLenFeature [] int64);
    ("image/width", FixedLenFeature [] int64);
    ("image/colorspace", FixedLenFeature [] tf_string);
    ("image/channels", FixedLenFeature [] int64);
    ("image/format", FixedLenFeature [] tf_string);
    ("image/filename", FixedLenFeature [] tf_string);
    ("image/id", FixedLenFeature [] tf_string);
    ("image/encoded", FixedLenFeature [] tf_string);
    ("image/extra", FixedLenFeature [] tf_string);
    ("image/class/label", FixedLenFeature [] int64);
    ("image/class/text", FixedLenFeature [] tf_string);
    ("image/class/conf", FixedLenFeature [] float32);
    ("image/object/bbox/xmin", VarLenFeature float32);
    ("image/object/bbox/xmax", VarLenFeature float32);
    ("image/object/bbox/ymin", VarLenFeature float32);
    ("image/object/bbox/ymax", VarLenFeature float32);
    ("image/object/bbox/label", VarLenFeature int64);
    ("image/object/bbox/text", VarLenFeature tf_string);
    ("image/object/bbox/conf", VarLenFeature float32);
    ("image/object/bbox/score", VarLenFeature float32);
    ("image/object/parts/x", VarLenFeature float32);
    ("image/object/parts/y", VarLenFeature float32);
    ("image/object/parts/v", VarLenFeature int64);
    ("image/object/parts/score", VarLenFeature float32);
    ("image/object/count", FixedLenFeature [] int64);
    ("image/object/area", VarLenFeature float32);
    ("image/object/id", VarLenFeature tf_string) ].

Definition schema : gmap string feature_spec := list_to_map schema_items.
Arguments schema : simpl never.

(** [d[key]] on a Python dictionary. *)
Definition getitem {V} (d : gmap string V) (key : string) : result V :=
  match d !! key with
  | Some v => Ok v
  | None => Raise (KeyError key)
  end.

(** Lines 16-46: the first loop, which looks every requested key up in the
    schema literal. *)
Fixpoint build_feature_map (features_to_fetch : list (string * string))
    (feature_map : gmap string feature_spec) : result (gmap string feature_spec) :=
  match features_to_fetch with
  | [] => Ok feature_map
  | (feature_key, feature_name) :: rest =>
      spec ← getitem schema feature_key;
      build_feature_map rest (<[feature_key := spec]> feature_map)
  end.

(** Lines 48-51: [tf.parse_single_example] refuses an empty [features]
    dictionary with a [ValueError]; otherwise it returns, for every key of
    [features], a dense tensor for a fixed-length slot and a sparse tensor
    for a variable-length one. *)
Definition parse_feature (serialized_example : tensor) (key : string)
    (spec : feature_spec) : value :=
  match spec with
  | FixedLenFeature shape dt => Tensor (ParseDense serialized_example key shape dt)
  | VarLenFeature dt =>
      SparseTensor (ParseSparseIndices serialized_example key)
                   (ParseSparseValues serialized_example key dt)
                   (ParseSparseShape serialized_example key)
  end.

Definition parse_single_example (serialized_example : tensor)
    (features : gmap string feature_spec) : result (gmap string value) :=
  if decide (features = ∅) then Raise (ValueError "Missing features.")
  else Ok (map_imap (λ key spec, Some (parse_feature serialized_example key spec))
                    features).

(** The attribute access [v.values]. *)
Definition values_attr (v : value) : result value :=
  match v with
  | SparseTensor _ vals _ => Ok (Tensor vals)
  | Tensor _ => Raise (AttributeError "values")
  end.

(** [tf.image.decode_jpeg(contents, channels=channels)]. *)
Definition decode_jpeg (contents : value) (channels : nat) : result value :=
  match contents with
  | Tensor t => Ok (Tensor (DecodeJpeg t channels))
  | SparseTensor _ _ _ => Raise (TypeError "contents")
  end.

(** The three shapes of branch body in the second loop. *)
Definition store_item (features : gmap string value) (feature_key feature_name : string)
    (parsed_features : gmap string value) : result (gmap string value) :=
  v ← getitem features feature_key;
  Ok (<[feature_name := v]> parsed_features).

Definition store_values (features : gmap string value) (feature_key feature_name : string)
    (parsed_features : gmap string value) : result (gmap string value) :=
  v ← getitem features feature_key;
  vals ← values_attr v;
  Ok (<[feature_name := vals]> parsed_features).

Definition store_image (decode_image : bool) (features : gmap string value)
    (feature_key feature_name : string)
    (parsed_features : gmap string value) : result (gmap string value) :=
  if decode_image then
    v ← getitem features feature_key;
    img ← decode_jpeg v 3;
    Ok (<[feature_name := img]> parsed_features)
  else
    v ← getitem features feature_key;
    Ok (<[feature_name := v]> parsed_features).

(** Lines 57-113: the [if]/[elif] chain, branch for branch.  A key that
    matches no branch falls through and leaves [parsed_features] as it is. *)
Definition dispatch (decode_image : bool) (features : gmap string value)
    (feature_key feature_name : string)
    (parsed_features : gmap string value) : result (gmap string value) :=
  if String.eqb feature_key "image/height" then
    store_item features feature_key feature_name parsed_features
  else if String.eqb feature_key "image/width" then
    store_item features feature_key feature_name parsed_features
  else if String.eqb feature_key "image/colorspace" then
    store_item features feature_key feature_name parsed_features
  else if String.eqb feature_key "image/channels" then
    store_item features feature_key feature_name parsed_features
  else if String.eqb feature_key "image/format" then
    store_item features feature_key feature_name parsed_features
  else if String.eqb feature_key "image/filename" then
    store_item features feature_key feature_name parsed_features
  else if String.eqb feature_key "image/id" then
    store_item features feature_key feature_name parsed_features
  else if String.eqb feature_key "image/encoded" then
    store_image decode_image features feature_key feature_name parsed_features
  else if String.eqb feature_key "image/extra" then
    store_item features feature_key feature_name parsed_features
  else if String.eqb feature_key "image/class/label" then
    store_item features feature_key feature_name parsed_features
  else if String.eqb feature_key "image/class/text" then
    store_item features feature_key feature_name parsed_features
  else if String.eqb feature_key "image/class/conf" then
    store_item features feature_key feature_name parsed_features
  else if String.eqb feature_key "image/object/bbox/xmin" then
    store_values features feature_key feature_name parsed_features
  else if String.eqb feature_key "image/object/bbox/xmax" then
    store_values features feature_key feature_name parsed_features
  else if String.eqb feature_key "image/object/bbox/ymin" then
    store_values features feature_key feature_name parsed_features
  else if String.eqb feature_key "image/object/bbox/ymax" then
    store_values features feature_key feature_name parsed_features
  else if String.eqb feature_key "image/object/bbox/label" then
    store_values features feature_key feature_name parsed_features
  else if String.eqb feature_key "image/object/bbox/text" then
    store_values features feature_key feature_name parsed_features
  else if String.eqb feature_key "image/object/bbox/conf" then
    store_values features feature_key feature_name parsed_features
  else if String.eqb feature_key "image/object/bbox/score" then
    store_values features feature_key feature_name parsed_features
  else if String.eqb feature_key "image/object/parts/x" then
    store_values features feature_key feature_name parsed_features
  else if String.eqb feature_key "image/object/parts/y" then
    store_values features feature_key feature_name parsed_features
  else if String.eqb feature_key "image/object/parts/v" then
    store_values features feature_key feature_name parsed_features
  else if String.eqb feature_key "image/object/parts/score" then
    store_values features feature_key feature_name parsed_features
  else if String.eqb feature_key "image/object/count" then
    store_item features feature_key feature_name parsed_features
  else if String.eqb feature_key "image/object/area" then
    store_values features feature_key feature_name parsed_features
  else if String.eqb feature_key "image/object/id" then
    store_values features feature_key feature_name parsed_features
  else
    Ok parsed_features.

(** Lines 54-113: the second loop. *)
Fixpoint fill_parsed_features (decode_image : bool) (features : gmap string value)
    (features_to_fetch : list (string * string))
    (parsed_features : gmap string value) : result (gmap string value) :=
  match features_to_fetch with
  | [] => Ok parsed_features
  | (feature_key, feature_name) :: rest =>
      parsed_features' ← dispatch decode_image features feature_key feature_name
                                  parsed_features;
      fill_parsed_features decode_image features rest parsed_features'
  end.

(** [decode_serialized_example(serialized_example, features_to_fetch,
    decode_image)] with all three arguments given. *)
Definition decode_serialized_example (serialized_example : tensor)
    (features_to_fetch : list (string * string)) (decode_image : bool)
    : result (gmap string value) :=
  feature_map ← build_feature_map features_to_fetch ∅;
  features ← parse_single_example serialized_example feature_map;
  fill_parsed_features decode_image features features_to_fetch ∅.

(** The call as Python resolves it: [decode_image=True] in the signature
    (line 7) is used when the caller leaves the argument out. *)
Definition decode_serialized_example_call (serialized_example : tensor)
    (features_to_fetch : list (string * string)) (decode_image : option bool)
    : result (gmap string value) :=
  decode_serialized_example serialized_example features_to_fetch
    (default true decode_image).

End DecodeExample.

(** ** The exporter, [export.py] *)

Module Exporter.

(** *** Paths *)

Fixpoint ends_with_slash (s : string) : bool :=
  match s with
  | EmptyString => false
  | String c EmptyString => Ascii.eqb c "/"%char
  | String _ rest => ends_with_slash rest
  end.

Definition starts_with_slash (s : string) : bool :=
  match s with
  | String c _ => Ascii.eqb c "/"%char
  | EmptyString => false
  end.

(** [os.path.join(a, b)] on a POSIX system. *)
Definition path_join (a b : string) : string :=
  if starts_with_slash b then b
  else if String.eqb a "" || ends_with_slash a then a +:+ b
  else a +:+ "/" +:+ b.

(** The directories above a path, as [os.makedirs] walks up to them with
    [os.path.split]: what stands before each run of slashes, the root
    aside. *)
Fixpoint ancestors_from (seen rest : string) : list string :=
  match rest with
  | EmptyString => []
  | String c rest' =>
      ((if Ascii.eqb c "/"%char && negb (String.eqb seen "")
           && negb (ends_with_slash seen)
        then [seen] else [])
       ++ ancestors_from (seen +:+ String c EmptyString) rest')%list
  end.

Definition ancestors (p : string) : list string := ancestors_from "" p.

(** *** Arguments and surroundings of a call *)

Record config := {
  INPUT_SIZE : nat;
  MODEL_NAME : string;
  NUM_CLASSES : nat
}.

Record args := {
  checkpoint_path : string;
  export_dir : string;
  export_version : Z;
  export_for_serving : bool;
  export_tflite : bool;
  export_coreml : bool;
  add_preprocess_step : bool;
  output_classes : bool;
  class_names : option (list string);
  batch_size : option Z;
  raveled_input : bool;
  cfg : config
}.

(** The framework calls [export] makes, by the lines they stand on. *)
Inductive tf_call :=
  | BuildGraph            (* 75-201: graph, network, saver *)
  | CreateSession         (* 213-220 *)
  | InitVariables         (* 226, 280 *)
  | RestoreCheckpoint     (* 228, 282 *)
  | BundleBuilder         (* 232 *)
  | BundleSignatures      (* 235-271 *)
  | BundleSave            (* 273 *)
  | FreezeGraph           (* 284-298 *)
  | OptimizeForInference  (* 303-308 *)
  | PatchLite             (* 328-331 *)
  | TocoConvert           (* 335-336 *)
  | CoremlConvert.        (* 359-364 *)

(** The calls into the operating system that [export] makes itself. *)
Inductive os_call :=
  | OsMakedirs (path : string)  (* lines 73, 314 *)
  | OsOpen (path : string).     (* lines 316-317, 339-340 *)

(** What the call cannot decide itself: whether a framework call or a call
    into the operating system raises, which other directories come into
    being when a directory is made (its missing parents, under every name
    they can be asked for), what [tf.train.latest_checkpoint] finds in a
    directory, and whether [import tfcoreml] succeeds. *)
Record env := {
  tf_raises : tf_call → option exn;
  os_raises : os_call → option exn;
  made_with : string → gset string;
  latest_checkpoint : string → option string;
  tfcoreml_importable : bool
}.

Inductive event :=
  | Makedirs (path : string) (parents : gset string)
  | Restore (checkpoint : string)
  | WriteFile (path : string)
  | Convert (tf_model_path mlmodel_path : string).

(** The file system, and what this call has done so far (oldest first). *)
Record world := {
  dirs : gset string;
  files : gset string;
  log : list event
}.

Definition files_written (l : list event) : list string :=
  omap (λ ev, match ev with WriteFile p => Some p | _ => None end) l.

Definition checkpoints_restored (l : list event) : list string :=
  omap (λ ev, match ev with Restore p => Some p | _ => None end) l.

(** *** State and exceptions *)

Definition M (A : Type) : Type := world → result A * world.

#[global] Instance M_ret : MRet M := λ A a w, (Ok a, w).
#[global] Instance M_bind : MBind M := λ A B f m w,
  match m w with
  | (Ok a, w') => f a w'
  | (Raise e, w') => (Raise e, w')
  end.

Definition raise {A} (e : exn) : M A := λ w, (Raise e, w).

(** [os.path.exists(p)] and [os.path.isdir(p)]. *)
Definition path_exists (p : string) : M bool :=
  λ w, (Ok (bool_decide (p ∈ dirs w ∪ files w)), w).

Definition isdir (p : string) : M bool :=
  λ w, (Ok (bool_decide (p ∈ dirs w)), w).

(** A directory is made, its missing parents with it. *)
Definition framework_makedirs (e : env) (p : string) : M unit :=
  λ w, (Ok (), {| dirs := {[p]} ∪ made_with e p ∪ dirs w; files := files w;
                  log := log w ++ [Makedirs p (made_with e p)] |}).

(** A file is written. *)
Definition framework_write (p : string) : M unit :=
  λ w, (Ok (), {| dirs := dirs w; files := {[p]} ∪ files w;
                  log := log w ++ [WriteFile p] |}).

(** [os.makedirs(p)]: it raises what the operating system says (on an empty
    path, under a regular file, without permission, ...), or makes the
    directory and its missing parents. *)
Definition makedirs (e : env) (p : string) : M unit :=
  match os_raises e (OsMakedirs p) with
  | Some x => raise x
  | None => framework_makedirs e p
  end.

(** [with open(p, mode) as f: f.write(...)]: [open] raises what the
    operating system says, or the file is written.  The script is Python 2
    (lines 25-27), where writing the serialized graph through a text-mode
    handle succeeds. *)
Definition write_file (e : env) (p : string) : M unit :=
  match os_raises e (OsOpen p) with
  | Some x => raise x
  | None => framework_write p
  end.

(** An entry of the log that leaves the file system as it is. *)
Definition emit (ev : event) : M unit :=
  λ w, (Ok (), {| dirs := dirs w; files := files w; log := log w ++ [ev] |}).

(** A framework call: it raises what the surroundings say, or returns. *)
Definition call_tf (e : env) (c : tf_call) : M unit :=
  match tf_raises e c with
  | Some x => raise x
  | None => mret ()
  end.

(** [assert cond, msg]. *)
Definition py_assert (cond : bool) (msg : string) : M unit :=
  if cond then mret () else raise (AssertionError msg).

(** Reading a local variable that an earlier branch may not have bound. *)
Definition read_local {A} (name : string) (v : option A) : M A :=
  match v with
  | Some a => mret a
  | None => raise (UnboundLocalError name)
  end.

(** The locals of [export] that only one of the two branches binds. *)
Record locals := {
  save_dir : option string;
  save_path : option string;
  input_node_names : option (list string);
  output_node_names : option (list string)
}.

Definition array_input_node_name : string := "images".
Definition bytes_input_node_name : string := "image_bytes".
Definition output_node_name : string := "Predictions".
Definition class_names_node_name : string := "names".
Definition input_depth : nat := 3.

(** *** [preprocess_image], lines 97-144, on tensor shapes

    The function runs inside the graph, once per image.  What it does to
    the number of channels is decided by the run-time shape of the decoded
    image, so the embedding follows the shape (outermost dimension first)
    through the same operations. *)

Definition expand_dims (shape : list nat) (axis : nat) : list nat :=
  (take axis shape ++ [1] ++ drop axis shape)%list.

(** [tf.shape(image)[i]]. *)
Definition dim (shape : list nat) (i : nat) : result nat :=
  match shape !! i with
  | Some d => Ok d
  | None => Raise (ValueError "slice index out of bounds")
  end.

(** [tf.image.grayscale_to_rgb]: the last dimension must be 1 and becomes 3. *)
Definition grayscale_to_rgb (shape : list nat) : result (list nat) :=
  match reverse shape with
  | 1 :: outer => Ok (reverse (3 :: outer))
  | _ => Raise (ValueError "Last dimension of a grayscale image should be size 1.")
  end.

(** [image[:, :, 0]]. *)
Definition slice_channel_0 (shape : list nat) : result (list nat) :=
  match shape with
  | h :: w :: S _ :: rest => Ok (h :: w :: rest)
  | _ => Raise (ValueError "slice index out of bounds")
  end.

(** [image[:, :, :3]]. *)
Definition slice_first_3 (shape : list nat) : result (list nat) :=
  match shape with
  | h :: w :: c :: rest => Ok (h :: w :: (c `min` 3) :: rest)
  | _ => Raise (ValueError "slice index out of bounds")
  end.

(** [tf.image.resize_bilinear(images, [height, width])] on a 4-D batch: the
    shape that the node gets when the graph is built.  ([export] builds the
    node and never runs it.) *)
Definition resize_bilinear (shape : list nat) (height width : nat) : result (list nat) :=
  match shape with
  | [b; _; _; c] => Ok [b; height; width; c]
  | _ => Raise (ValueError "images must be 4-D")
  end.

(** [tf.squeeze(image, [0])]. *)
Definition squeeze_0 (shape : list nat) : result (list nat) :=
  match shape with
  | 1 :: rest => Ok rest
  | _ => Raise (ValueError "Can not squeeze dim[0]")
  end.

(** [decoded] is the shape of [tf.image.decode_image(image_buffer)]. *)
Definition preprocess_image (input_height input_width : nat) (decoded : list nat)
    : result (list nat) :=
  let image := if Nat.eqb (length decoded) 2 then expand_dims decoded 2 else decoded in
  num_channels ← dim image 2;
  image ← (if Nat.eqb num_channels 1 then grayscale_to_rgb image else Ok image);
  image ← (if Nat.eqb num_channels 2
           then ch ← slice_channel_0 image; grayscale_to_rgb (expand_dims ch 2)
           else Ok image);
  image ← (if Nat.ltb 3 num_channels then slice_first_3 image else Ok image);
  let image := expand_dims image 0 in
  image ← resize_bilinear image input_height input_width;
  squeeze_0 image.

(** *** The body of [export] *)

(** Lines 203-209. *)
Definition resolve_checkpoint (e : env) (checkpoint_path : string) : M string :=
  d ← isdir checkpoint_path;
  if d : bool then
    let checkpoint_dir := checkpoint_path in
    match latest_checkpoint e checkpoint_dir with
    | None =>
        raise (ValueError
          ("Unable to find a model checkpoint in the directory " +:+ checkpoint_dir))
    | Some found => mret found
    end
  else mret checkpoint_path.

(** Lines 222-275.  The bundle writer makes its directory [save_path] when
    it is constructed and writes the bundle into it on [builder.save()]; a
    failure of either is an exception of that framework call. *)
Definition serving_branch (e : env) (a : args) (checkpoint_path : string) : M locals :=
  call_tf e InitVariables;;
  call_tf e RestoreCheckpoint;;
  emit (Restore checkpoint_path);;
  let save_path := path_join (export_dir a) (pretty (export_version a)) in
  call_tf e BundleBuilder;;
  framework_makedirs e save_path;;
  call_tf e BundleSignatures;;
  call_tf e BundleSave;;
  framework_write (path_join save_path "saved_model.pb");;
  mret {| save_dir := None; save_path := Some save_path;
          input_node_names := None; output_node_names := None |}.

(** Lines 324-346. *)
Definition tflite_step (e : env) (a : args) (save_dir : string) : M unit :=
  call_tf e PatchLite;;
  py_assert (bool_decide (batch_size a ≠ None))
    "We need a fixed batch size for the tensorflow lite export. (e.g. set --batch_size=1)";;
  call_tf e TocoConvert;;
  let tflite_save_path := path_join save_dir "optimized_model.tflite" in
  write_file e tflite_save_path.

(** Lines 277-346. *)
Definition frozen_branch (e : env) (a : args) (checkpoint_path : string) : M locals :=
  call_tf e InitVariables;;
  call_tf e RestoreCheckpoint;;
  emit (Restore checkpoint_path);;
  let input_node_names :=
    ([array_input_node_name] ++
     (if add_preprocess_step a then [bytes_input_node_name] else []))%list in
  let output_node_names :=
    ([output_node_name] ++
     (if output_classes a then [class_names_node_name] else []))%list in
  call_tf e FreezeGraph;;
  (if add_preprocess_step a then mret () else call_tf e OptimizeForInference);;
  let save_dir := path_join (export_dir a) (pretty (export_version a)) in
  ex ← path_exists save_dir;
  (if ex : bool then mret () else makedirs e save_dir);;
  let save_path := path_join save_dir "optimized_model.pb" in
  write_file e save_path;;
  (if export_tflite a then tflite_step e a save_dir else mret ());;
  mret {| save_dir := Some save_dir; save_path := Some save_path;
          input_node_names := Some input_node_names;
          output_node_names := Some output_node_names |}.

(** Lines 349-369.  The converter writes the coreml file itself; a failure
    to write it is an exception of the call to it. *)
Definition coreml_step (e : env) (a : args) (l : locals) : M unit :=
  (if tfcoreml_importable e then mret ()
   else raise (ValueError "Can't import tfcoreml, so we can't create a coreml model."));;
  py_assert (bool_decide (batch_size a ≠ None))
    "We need a fixed batch size for the coreml export. (e.g. set --batch_size=1)";;
  py_assert (bool_decide (raveled_input a = false))
    "The input cannot be raveled. CoreML does not support `reshape()`.";;
  save_dir ← read_local "save_dir" (save_dir l);
  let coreml_save_path := path_join save_dir "optimized_model.mlmodel" in
  save_path ← read_local "save_path" (save_path l);
  call_tf e CoremlConvert;;
  emit (Convert save_path coreml_save_path);;
  framework_write coreml_save_path;;
  _ ← read_local "input_node_names" (input_node_names l);
  mret ().

(** [export(...)], lines 47-369.  The [print] and [tf.logging] lines are
    left out; every other statement is a step below. *)
Definition export (e : env) (a : args) : M unit :=
  ex ← path_exists (export_dir a);
  (if ex : bool then mret () else makedirs e (export_dir a));;
  call_tf e BuildGraph;;
  checkpoint_path ← resolve_checkpoint e (checkpoint_path a);
  call_tf e CreateSession;;
  l ← (if export_for_serving a
       then serving_branch e a checkpoint_path
       else frozen_branch e a checkpoint_path);
  if export_coreml a then coreml_step e a l else mret ().

End Exporter.

(** ** Vocabulary of the statements *)

Module DecodeSpec.
Import DecodeExample.

(** A key is recognized when the schema literal has an entry for it. *)
Definition recognized (key : string) : Prop := is_Some (schema !! key).

(** The decoded value of a schema key as section 4.1 of the specification
    words it: a fixed-length slot is the parsed tensor itself, the
    image-bytes slot is decoded to pixels with three channels when decoding
    is on, and a variable-length slot is the flat sequence of its values. *)
Definition expected_value (serialized_example : tensor) (decode_image : bool)
    (key : string) (spec : feature_spec) : value :=
  match spec with
  | FixedLenFeature shape dt =>
      let raw := ParseDense serialized_example key shape dt in
      if decode_image && String.eqb key "image/encoded"
      then Tensor (DecodeJpeg raw 3)
      else Tensor raw
  | VarLenFeature dt => Tensor (ParseSparseValues serialized_example key dt)
  end.

(** The variable-length keys the specification lists: bounding-box
    coordinates, labels, text, conf and score, part coordinates, visibility
    and score, per-instance area and id. *)
Definition variable_length_keys : list string :=
  [ "image/object/bbox/xmin"; "image/object/bbox/xmax";
    "image/object/bbox/ymin"; "image/object/bbox/ymax";
    "image/object/bbox/label"; "image/object/bbox/text";
    "image/object/bbox/conf"; "image/object/bbox/score";
    "image/object/parts/x"; "image/object/parts/y";
    "image/object/parts/v"; "image/object/parts/score";
    "image/object/area"; "image/object/id" ].

(** The keys of the schema literal whose slot is a [VarLenFeature]. *)
Definition schema_varlen_keys : list string :=
  omap (λ item, match item.2 with
                | VarLenFeature _ => Some item.1
                | FixedLenFeature _ _ => None
                end) schema_items.

(** "Every request of recognized keys is returned in full", as the reading
    of lines 54-115 has it. *)
Definition claimed_full_return : Prop :=
  ∀ serialized_example features_to_fetch decode_image,
    Forall (λ kn, recognized kn.1) features_to_fetch →
    ∃ m, decode_serialized_example serialized_example features_to_fetch decode_image
         = Ok m
         ∧ dom m = list_to_set features_to_fetch.*2.

(** A request used to run the statements on: two fixed-length slots, the
    image bytes, and one variable-length slot. *)
Definition sample_fetch : list (string * string) :=
  [ ("image/encoded", "image"); ("image/class/label", "label");
    ("image/object/bbox/xmin", "xmin"); ("image/object/count", "count") ].

Definition sample_record : tensor := Serialized "record".

End DecodeSpec.

Module ExportSpec.
Import Exporter.

(** The artifacts of a call, by the paths the code builds for them. *)
Definition version_dir (a : args) : string :=
  path_join (export_dir a) (pretty (export_version a)).
Definition frozen_graph_path (a : args) : string :=
  path_join (version_dir a) "optimized_model.pb".
Definition tflite_path (a : args) : string :=
  path_join (version_dir a) "optimized_model.tflite".
Definition coreml_path (a : args) : string :=
  path_join (version_dir a) "optimized_model.mlmodel".
Definition bundle_path (a : args) : string :=
  path_join (version_dir a) "saved_model.pb".

(** The messages of the errors [export] raises itself. *)
Definition checkpoint_not_found (checkpoint_dir : string) : exn :=
  ValueError ("Unable to find a model checkpoint in the directory " +:+ checkpoint_dir).
Definition tflite_needs_batch_size : exn :=
  AssertionError
    "We need a fixed batch size for the tensorflow lite export. (e.g. set --batch_size=1)".
Definition tfcoreml_missing : exn :=
  ValueError "Can't import tfcoreml, so we can't create a coreml model.".
Definition coreml_needs_batch_size : exn :=
  AssertionError
    "We need a fixed batch size for the coreml export. (e.g. set --batch_size=1)".
Definition coreml_rejects_raveled : exn :=
  AssertionError "The input cannot be raveled. CoreML does not support `reshape()`.".

(** The effect of one logged event on the file system. *)
Definition apply_event (w : world) (ev : event) : world :=
  {| dirs := match ev with
             | Makedirs p parents => {[p]} ∪ parents ∪ dirs w
             | _ => dirs w
             end;
     files := match ev with WriteFile p => {[p]} ∪ files w | _ => files w end;
     log := log w ++ [ev] |}.

(** [wp m w Q]: run from [w], the computation [m] ends with a result and a
    list of new events, in the order they happened, that satisfy [Q]. *)
Definition wp {A} (m : M A) (w : world) (Q : result A → list event → Prop) : Prop :=
  ∃ evs, (m w).2 = foldl apply_event w evs ∧ Q (m w).1 evs.

(** The locals each branch leaves behind when it returns. *)
Definition serving_locals (a : args) : locals :=
  {| save_dir := None; save_path := Some (version_dir a);
     input_node_names := None; output_node_names := None |}.

Definition frozen_locals (a : args) : locals :=
  {| save_dir := Some (version_dir a);
     save_path := Some (frozen_graph_path a);
     input_node_names :=
       Some ([array_input_node_name] ++
             (if add_preprocess_step a then [bytes_input_node_name] else []))%list;
     output_node_names :=
       Some ([output_node_name] ++
             (if output_classes a then [class_names_node_name] else []))%list |}.

(** How the serving branch (lines 222-275) can end. *)
Definition serving_post (e : env) (a : args) (ckpt : string)
    (r : result locals) (evs : list event) : Prop :=
  match r with
  | Ok l =>
      l = serving_locals a
      ∧ evs = [Restore ckpt;
               Makedirs (version_dir a) (made_with e (version_dir a));
               WriteFile (bundle_path a)]
  | Raise x =>
      files_written evs = []
      ∧ ∃ c, tf_raises e c = Some x
             ∧ (checkpoints_restored evs = [ckpt]
                ∨ (c = InitVariables ∨ c = RestoreCheckpoint)
                  ∧ checkpoints_restored evs = [])
  end.

(** How the frozen-graph branch (lines 277-346) can end when it is entered
    in the world [w]. *)
Definition frozen_post (e : env) (a : args) (w : world) (ckpt : string)
    (r : result locals) (evs : list event) : Prop :=
  match r with
  | Ok l =>
      l = frozen_locals a
      ∧ checkpoints_restored evs = [ckpt]
      ∧ files_written evs
        = frozen_graph_path a :: (if export_tflite a then [tflite_path a] else [])
      ∧ (export_tflite a = true → batch_size a ≠ None)
  | Raise x =>
      (files_written evs = []
       ∨ files_written evs = [frozen_graph_path a] ∧ export_tflite a = true)
      ∧ ((∃ c, tf_raises e c = Some x
               ∧ (checkpoints_restored evs = [ckpt]
                  ∨ (c = InitVariables ∨ c = RestoreCheckpoint)
                    ∧ checkpoints_restored evs = []))
         ∨ (∃ c, os_raises e c = Some x ∧ checkpoints_restored evs = [ckpt]
                 ∧ (c = OsMakedirs (version_dir a)
                    ∧ (version_dir a ∉ dirs w ∪ files w)
                    ∧ files_written evs = []
                    ∨ c = OsOpen (frozen_graph_path a) ∧ files_written evs = []
                    ∨ c = OsOpen (tflite_path a) ∧ export_tflite a = true))
         ∨ (x = tflite_needs_batch_size
            ∧ export_tflite a = true ∧ batch_size a = None
            ∧ checkpoints_restored evs = [ckpt]
            ∧ files_written evs = [frozen_graph_path a]))
  end.

Definition branch_post (e : env) (a : args) (w : world) (ckpt : string)
    (r : result locals) (evs : list event) : Prop :=
  if export_for_serving a then serving_post e a ckpt r evs
  else frozen_post e a w ckpt r evs.

(** How the coreml step (lines 349-369) can end when it is entered with the
    locals [l]. *)
Definition coreml_post (e : env) (a : args) (l : locals)
    (r : result unit) (evs : list event) : Prop :=
  checkpoints_restored evs = []
  ∧ match r with
    | Ok _ =>
        tfcoreml_importable e = true ∧ batch_size a ≠ None
        ∧ raveled_input a = false
        ∧ ∃ dir, save_dir l = Some dir
                 ∧ files_written evs = [path_join dir "optimized_model.mlmodel"]
    | Raise x =>
        if tfcoreml_importable e then
          match batch_size a with
          | None => x = coreml_needs_batch_size ∧ evs = []
          | Some _ =>
              if raveled_input a then x = coreml_rejects_raveled ∧ evs = []
              else match save_dir l with
                   | None => x = UnboundLocalError "save_dir" ∧ evs = []
                   | Some dir =>
                       (files_written evs = []
                        ∧ (x = UnboundLocalError "save_path"
                           ∨ tf_raises e CoremlConvert = Some x))
                       ∨ (files_written evs
                          = [path_join dir "optimized_model.mlmodel"]
                          ∧ x = UnboundLocalError "input_node_names")
                   end
          end
        else x = tfcoreml_missing ∧ evs = []
    end.

(** Lines 71-73 pass: the export directory is there, or can be made. *)
Definition export_dir_ready (e : env) (a : args) (w : world) : Prop :=
  export_dir a ∈ dirs w ∪ files w ∨ os_raises e (OsMakedirs (export_dir a)) = None.

(** Lines 71-73: the export directory is made when it is not there. *)
Definition prelude (e : env) (a : args) (w : world) (pre : list event) : Prop :=
  export_dir_ready e a w
  ∧ pre = (if bool_decide (export_dir a ∈ dirs w ∪ files w) then []
           else [Makedirs (export_dir a) (made_with e (export_dir a))]).

(** Lines 203-209: the checkpoint the call goes on with. *)
Definition resolved (e : env) (a : args) (w : world) (pre : list event)
    (r : result string) : Prop :=
  r = if bool_decide (checkpoint_path a ∈ dirs (foldl apply_event w pre))
      then match latest_checkpoint e (checkpoint_path a) with
           | Some found => Ok found
           | None => Raise (checkpoint_not_found (checkpoint_path a))
           end
      else Ok (checkpoint_path a).

(** The ways a call of [export] can end, with the events it leaves. *)
Inductive export_outcome (e : env) (a : args) (w : world)
    : result unit → list event → Prop :=
  | stops_at_export_dir x :
      export_dir a ∉ dirs w ∪ files w →
      os_raises e (OsMakedirs (export_dir a)) = Some x →
      export_outcome e a w (Raise x) []
  | stops_in_graph x pre :
      prelude e a w pre → tf_raises e BuildGraph = Some x →
      export_outcome e a w (Raise x) pre
  | stops_without_checkpoint x pre :
      prelude e a w pre → tf_raises e BuildGraph = None →
      resolved e a w pre (Raise x) →
      export_outcome e a w (Raise x) pre
  | stops_in_session x pre ckpt :
      prelude e a w pre → tf_raises e BuildGraph = None →
      resolved e a w pre (Ok ckpt) → tf_raises e CreateSession = Some x →
      export_outcome e a w (Raise x) pre
  | stops_in_branch x pre ckpt evb :
      prelude e a w pre → tf_raises e BuildGraph = None →
      resolved e a w pre (Ok ckpt) → tf_raises e CreateSession = None →
      branch_post e a (foldl apply_event w pre) ckpt (Raise x) evb →
      export_outcome e a w (Raise x) (pre ++ evb)
  | ends_after_branch pre ckpt l evb :
      prelude e a w pre → tf_raises e BuildGraph = None →
      resolved e a w pre (Ok ckpt) → tf_raises e CreateSession = None →
      branch_post e a (foldl apply_event w pre) ckpt (Ok l) evb → export_coreml a = false →
      export_outcome e a w (Ok ()) (pre ++ evb)
  | ends_in_coreml pre ckpt l evb r evc :
      prelude e a w pre → tf_raises e BuildGraph = None →
      resolved e a w pre (Ok ckpt) → tf_raises e CreateSession = None →
      branch_post e a (foldl apply_event w pre) ckpt (Ok l) evb → export_coreml a = true →
      coreml_post e a l r evc →
      export_outcome e a w r (pre ++ evb ++ evc).

(** "The export fails before any file is written", as sections 4.2 and 8 of
    the specification say it. *)
Definition fails_before_writing (e : env) (a : args) (w : world) : Prop :=
  is_ok (export e a w).1 = false
  ∧ files_written (log (export e a w).2) = files_written (log w).

(** Surroundings and arguments to run the statements on: no call raises, and
    a directory is made with the directories above it. *)
Definition quiet_env : env :=
  {| tf_raises := λ _, None;
     os_raises := λ _, None;
     made_with := λ p, list_to_set (ancestors p);
     latest_checkpoint := λ dir,
       if String.eqb dir "train" then Some "train/model.ckpt-399739" else None;
     tfcoreml_importable := true |}.

Definition env_without_tfcoreml : env :=
  {| tf_raises := tf_raises quiet_env;
     os_raises := os_raises quiet_env;
     made_with := made_with quiet_env;
     latest_checkpoint := latest_checkpoint quiet_env;
     tfcoreml_importable := false |}.

(** Surroundings in which the operating system refuses an empty path and a
    path below the regular file [export/1]. *)
Definition strict_env : env :=
  {| tf_raises := λ _, None;
     os_raises := λ c,
       match c with
       | OsMakedirs p =>
           if String.eqb p ""
           then Some (OSError "[Errno 2] No such file or directory: ''")
           else None
       | OsOpen p =>
           if String.eqb p "export/1/optimized_model.pb"
           then Some (OSError
                        "[Errno 20] Not a directory: 'export/1/optimized_model.pb'")
           else None
       end;
     made_with := made_with quiet_env;
     latest_checkpoint := latest_checkpoint quiet_env;
     tfcoreml_importable := true |}.

Definition empty_world : world := {| dirs := ∅; files := ∅; log := [] |}.

Definition training_world : world :=
  {| dirs := {["train"; "runs"]}; files := {["train/model.ckpt-399739"]}; log := [] |}.

Definition sample_cfg : config :=
  {| INPUT_SIZE := 299; MODEL_NAME := "inception_v3"; NUM_CLASSES := 1000 |}.

Definition sample_args (checkpoint : string) (serving tflite coreml : bool)
    (batch : option Z) (raveled : bool) : args :=
  {| checkpoint_path := checkpoint; export_dir := "export"; export_version := 1;
     export_for_serving := serving; export_tflite := tflite;
     export_coreml := coreml; add_preprocess_step := false;
     output_classes := false; class_names := None;
     batch_size := batch; raveled_input := raveled; cfg := sample_cfg |}.

(** The checkpoint path is a file, or a directory that holds a checkpoint.
    (The directories that line 73 can make count as directories.) *)
Definition checkpoint_available (e : env) (a : args) (w : world) : Prop :=
  checkpoint_path a ∈ dirs w ∪ {[export_dir a]} ∪ made_with e (export_dir a) →
  is_Some (latest_checkpoint e (checkpoint_path a)).

(** The files of the model itself, in the order the code writes them: what is
    on disk when lines 222-346 are through. *)
Definition model_artifacts (a : args) : list string :=
  if export_for_serving a then [bundle_path a]
  else frozen_graph_path a :: (if export_tflite a then [tflite_path a] else []).

(** None of the calls into the operating system that lines 277-346 make
    raises: [os.makedirs] of line 314, when the version directory is not
    there, and the two [open] of lines 316 and 339. *)
Definition frozen_os_calls_pass (e : env) (a : args) (w : world) : Prop :=
  (version_dir a ∈ dirs w ∪ files w
   ∨ os_raises e (OsMakedirs (version_dir a)) = None)
  ∧ os_raises e (OsOpen (frozen_graph_path a)) = None
  ∧ (export_tflite a = true → os_raises e (OsOpen (tflite_path a)) = None).

(** None of the calls into the operating system that [export] makes
    raises. *)
Definition os_calls_pass (e : env) (a : args) (w : world) : Prop :=
  export_dir_ready e a w
  ∧ (export_for_serving a = false → frozen_os_calls_pass e a w).

(** Three statements as they are worded: sections 4.2 and 8 of the
    specification on the two guards of the converted formats, and the
    reading of lines 349-364 for a serving export that also asks for
    coreml. *)
Definition claimed_batch_size_guard : Prop :=
  ∀ e a w, export_tflite a = true ∨ export_coreml a = true →
           batch_size a = None → fails_before_writing e a w.

Definition claimed_raveled_guard : Prop :=
  ∀ e a w, export_coreml a = true → raveled_input a = true →
           fails_before_writing e a w.

Definition claimed_serving_coreml_failure : Prop :=
  ∀ e a w, export_for_serving a = true → export_coreml a = true →
           (export e a w).1 = Raise (UnboundLocalError "save_dir").

Definition tflite_without_batch : args :=
  sample_args "model.ckpt-399739" false true false None false.
Definition serving_tflite_without_batch : args :=
  sample_args "model.ckpt-399739" true true false None false.
Definition coreml_raveled : args :=
  sample_args "model.ckpt-399739" false false true (Some 1%Z) true.
Definition serving_coreml : args :=
  sample_args "model.ckpt-399739" true false true (Some 1%Z) false.
Definition serving_coreml_without_batch : args :=
  sample_args "model.ckpt-399739" true false true None false.
Definition from_directory : args :=
  sample_args "train" false false false None false.
Definition from_empty_directory : args :=
  sample_args "runs" false false false None false.

(** Calls into other export directories. *)
Definition sample_args_into (dir checkpoint : string) : args :=
  {| checkpoint_path := checkpoint; export_dir := dir; export_version := 1;
     export_for_serving := false; export_tflite := false;
     export_coreml := false; add_preprocess_step := false;
     output_classes := false; class_names := None;
     batch_size := None; raveled_input := false; cfg := sample_cfg |}.

Definition into_empty_path : args := sample_args_into "" "train".
Definition under_a_file : args := sample_args_into "export" "model.ckpt-399739".
Definition into_nested_path : args := sample_args_into "out/models" "out".

End ExportSpec.

(** ** The rest of [export.py] *)

(** *** The signature map of the serving bundle, lines 234-262 *)

Module Signatures.

(** [signature_constants.DEFAULT_SERVING_SIGNATURE_DEF_KEY] and
    [signature_constants.PREDICT_METHOD_NAME], the two constants of the
    framework that the lines use. *)
Definition DEFAULT_SERVING_SIGNATURE_DEF_KEY : string := "serving_default".
Definition PREDICT_METHOD_NAME : string := "tensorflow/serving/predict".

(** The tensors the signatures refer to, by what they are in the graph. *)
Inductive graph_tensor :=
  | class_scores            (* line 178 *)
  | predicted_classes       (* lines 182-183 *)
  | image_bytes_placeholder (* lines 146-147 *)
  | input_placeholder.      (* lines 151-152, 158, 160 *)

(** [utils.build_tensor_info(t)]. *)
Inductive tensor_info := build_tensor_info (t : graph_tensor).

(** [signature_def_utils.build_signature_def(inputs, outputs, method_name)]. *)
Record signature_def := build_signature_def {
  inputs : gmap string tensor_info;
  outputs : gmap string tensor_info;
  method_name : string
}.

(** Lines 236-240. *)
Definition signature_def_outputs (output_classes : bool) : gmap string tensor_info :=
  let signature_def_outputs := {[ "scores" := build_tensor_info class_scores ]} in
  if output_classes
  then <["classes" := build_tensor_info predicted_classes]> signature_def_outputs
  else signature_def_outputs.

(** Lines 235-262. *)
Definition signature_def_map (add_preprocess_step output_classes : bool)
    : gmap string signature_def :=
  let signature_def_map := ∅ in
  let signature_def_outputs := signature_def_outputs output_classes in
  let signature_def_map :=
    if add_preprocess_step then
      let image_bytes_tensor_info := build_tensor_info image_bytes_placeholder in
      let image_bytes_prediction_signature :=
        build_signature_def {[ "images" := image_bytes_tensor_info ]}
                            signature_def_outputs PREDICT_METHOD_NAME in
      <["predict_image_bytes" := image_bytes_prediction_signature]> signature_def_map
    else signature_def_map in
  let image_array_tensor_info := build_tensor_info input_placeholder in
  let image_array_prediction_signature :=
    build_signature_def {[ "images" := image_array_tensor_info ]}
                        signature_def_outputs PREDICT_METHOD_NAME in
  let signature_def_map :=
    <["predict_image_array" := image_array_prediction_signature]> signature_def_map in
  <[DEFAULT_SERVING_SIGNATURE_DEF_KEY := image_array_prediction_signature]>
    signature_def_map.

End Signatures.

(** *** Reading the class names, lines 435-441 *)

Module ClassNames.

(** The characters [str.strip()] removes: space, tab, line feed, vertical
    tab, form feed and carriage return. *)
Definition is_whitespace (c : ascii) : bool :=
  let n := Ascii.nat_of_ascii c in
  Nat.eqb n 32 || (Nat.leb 9 n && Nat.leb n 13).

Definition is_newline (c : ascii) : bool := Nat.eqb (Ascii.nat_of_ascii c) 10.

Fixpoint lstrip (s : string) : string :=
  match s with
  | String c rest => if is_whitespace c then lstrip rest else s
  | EmptyString => EmptyString
  end.

Fixpoint rstrip (s : string) : string :=
  match s with
  | String c rest =>
      match rstrip rest with
      | EmptyString => if is_whitespace c then EmptyString else String c EmptyString
      | kept => String c kept
      end
  | EmptyString => EmptyString
  end.

(** [line.strip()]. *)
Definition strip (s : string) : string := lstrip (rstrip s).

(** [for line in f]: the lines of the file, each with its line feed; a last
    line without one is a line too, and an empty rest is none. *)
Fixpoint file_lines (content : string) : list string :=
  match content with
  | EmptyString => []
  | String c rest =>
      if is_newline c then String c EmptyString :: file_lines rest
      else match file_lines rest with
           | [] => [String c EmptyString]
           | line :: more => String c line :: more
           end
  end.

(** What can come out of lines 435-441: the names, no names, or the error of
    [open] on a path that cannot be read. *)
Inductive loaded :=
  | Loaded (class_names : option (list string))
  | IOError (path : string).

(** Lines 435-441, with [read_file] for the files that [open] can read. *)
Definition load_class_names (read_file : string → option string)
    (class_names_path : option string) : loaded :=
  match class_names_path with
  | Some path =>
      match read_file path with
      | Some content => Loaded (Some (strip <$> file_lines content))
      | None => IOError path
      end
  | None => Loaded None
  end.

End ClassNames.

(** ** More vocabulary *)

Module MoreSpec.
Import Exporter ExportSpec ClassNames.

(** The files a call is asked to produce, in the order the code writes
    them. *)
Definition expected_artifacts (a : args) : list string :=
  if export_for_serving a then [bundle_path a]
  else frozen_graph_path a
       :: ((if export_tflite a then [tflite_path a] else [])
           ++ (if export_coreml a then [coreml_path a] else []))%list.

(** Line 203 finds a directory: [checkpoint_path] was one before the call,
    or it is the export directory, or one of the directories made with it,
    that lines 71-73 have just made. *)
Definition checkpoint_is_directory (e : env) (a : args) (w : world) : Prop :=
  checkpoint_path a ∈ dirs w
  ∨ (export_dir a ∉ dirs w ∪ files w)
    ∧ checkpoint_path a ∈ ({[export_dir a]} ∪ made_with e (export_dir a) : gset string).

(** The flags and surroundings under which no statement of [export] raises,
    calls into the framework and into the operating system aside. *)
Definition export_conditions (e : env) (a : args) (w : world) : Prop :=
  (checkpoint_is_directory e a w →
   is_Some (latest_checkpoint e (checkpoint_path a)))
  ∧ (export_for_serving a = false → export_tflite a = true → batch_size a ≠ None)
  ∧ (export_coreml a = true →
     export_for_serving a = false ∧ tfcoreml_importable e = true
     ∧ batch_size a ≠ None ∧ raveled_input a = false).

(** The same call with another value of one argument. *)
Definition with_tflite (b : bool) (a : args) : args :=
  {| checkpoint_path := checkpoint_path a; export_dir := export_dir a;
     export_version := export_version a;
     export_for_serving := export_for_serving a; export_tflite := b;
     export_coreml := export_coreml a;
     add_preprocess_step := add_preprocess_step a;
     output_classes := output_classes a; class_names := class_names a;
     batch_size := batch_size a; raveled_input := raveled_input a;
     cfg := cfg a |}.

Definition with_export_dir (dir : string) (a : args) : args :=
  {| checkpoint_path := checkpoint_path a; export_dir := dir;
     export_version := export_version a;
     export_for_serving := export_for_serving a;
     export_tflite := export_tflite a; export_coreml := export_coreml a;
     add_preprocess_step := add_preprocess_step a;
     output_classes := output_classes a; class_names := class_names a;
     batch_size := batch_size a; raveled_input := raveled_input a;
     cfg := cfg a |}.

Definition with_export_version (version : Z) (a : args) : args :=
  {| checkpoint_path := checkpoint_path a; export_dir := export_dir a;
     export_version := version;
     export_for_serving := export_for_serving a;
     export_tflite := export_tflite a; export_coreml := export_coreml a;
     add_preprocess_step := add_preprocess_step a;
     output_classes := output_classes a; class_names := class_names a;
     batch_size := batch_size a; raveled_input := raveled_input a;
     cfg := cfg a |}.

(** A class-names file: every name on a line of its own, followed by
    padding and a line feed. *)
Fixpoint class_names_file (entries : list (string * string)) : string :=
  match entries with
  | [] => ""
  | (name, padding) :: more =>
      name +:+ padding +:+ String "010"%char (class_names_file more)
  end.

Fixpoint all_chars (P : ascii → bool) (s : string) : bool :=
  match s with
  | EmptyString => true
  | String c rest => P c && all_chars P rest
  end.

(** A name that [strip] leaves as it is and that holds no line feed. *)
Definition clean_name (name : string) : Prop :=
  strip name = name ∧ all_chars (λ c, negb (is_newline c)) name = true.

(** Padding: white space other than the line feed. *)
Definition padding (s : string) : Prop :=
  all_chars (λ c, is_whitespace c && negb (is_newline c)) s = true.

(** All three converted or frozen formats asked for at once. *)
Definition all_formats : args :=
  sample_args "model.ckpt-399739" false true true (Some 1%Z) false.

End MoreSpec.

(** * Properties of the record decoder *)

Local Open Scope list_scope.

Section Decoder.
Import DecodeExample DecodeSpec.

Implicit Types (fetch : list (string * string)) (ex : tensor).

Lemma schema_lookup_items key spec :
  schema !! key = Some spec → (key, spec) ∈ schema_items.
Proof. apply elem_of_list_to_map_2. Qed.

(** The first loop fails at the first unrecognized key it meets. *)
Lemma build_feature_map_unrecognized fetch fm :
  Exists (λ kn, schema !! kn.1 = None) fetch →
  ∃ key, build_feature_map fetch fm = Raise (KeyError key)
         ∧ schema !! key = None ∧ key ∈ fetch.*1.
Proof.
  revert fm. induction fetch as [|[k n] rest IH]; intros fm Hex.
  - inversion Hex.
  - cbn [build_feature_map]. unfold getitem.
    destruct (schema !! k) as [spec|] eqn:Hk; cbn [mbind result_bind].
    + apply Exists_cons in Hex as [Hhere|Hlater];
        [change (schema !! k = None) in Hhere; congruence|].
      destruct (IH (<[k:=spec]> fm) Hlater) as (key & Hr & Hnone & Hin).
      exists key. split_and!; [exact Hr|exact Hnone|].
      rewrite fmap_cons. by apply list_elem_of_further.
    + exists k. split_and!; [reflexivity|exact Hk|].
      rewrite fmap_cons. apply list_elem_of_here.
Qed.

(** On recognized keys the first loop returns the schema restricted to the
    requested keys, on top of the map it started from. *)
Lemma build_feature_map_recognized fetch fm :
  Forall (λ kn, recognized kn.1) fetch →
  ∃ fm', build_feature_map fetch fm = Ok fm'
         ∧ ∀ key, fm' !! key = if decide (key ∈ fetch.*1) then schema !! key
                              else fm !! key.
Proof.
  revert fm. induction fetch as [|[k n] rest IH]; intros fm Hall.
  - exists fm. split; [reflexivity|]. intros key.
    rewrite decide_False; [reflexivity|]. apply not_elem_of_nil.
  - apply Forall_cons in Hall as [[spec Hk] Hrest].
    change (schema !! k = Some spec) in Hk.
    cbn [build_feature_map]. unfold getitem. rewrite Hk. cbn [mbind result_bind].
    destruct (IH (<[k:=spec]> fm) Hrest) as (fm' & Hr & Hfm').
    exists fm'. split; [exact Hr|]. intros key. rewrite Hfm', fmap_cons.
    change ((k, n).1) with k.
    destruct (decide (key = k)) as [->|Hne].
    + rewrite (decide_True (P := k ∈ k :: rest.*1)) by apply list_elem_of_here.
      case_decide; [reflexivity|]. by rewrite lookup_insert_eq, Hk.
    + rewrite lookup_insert_ne by congruence.
      destruct (decide (key ∈ rest.*1)) as [Hin|Hout].
      * rewrite decide_True; [reflexivity|]. by apply list_elem_of_further.
      * rewrite decide_False; [reflexivity|].
        intros [?|?]%elem_of_cons; contradiction.
Qed.

Lemma parse_single_example_lookup ex fm features key :
  parse_single_example ex fm = Ok features →
  features !! key = parse_feature ex key <$> fm !! key.
Proof.
  unfold parse_single_example. case_decide; [discriminate|].
  intros [= <-]. rewrite map_lookup_imap. by destruct (fm !! key).
Qed.

(** The parse step returns for every feature map that is not empty. *)
Lemma parse_single_example_returns ex fm :
  fm ≠ ∅ → ∃ features, parse_single_example ex fm = Ok features.
Proof. intros Hfm. unfold parse_single_example. rewrite decide_False; eauto. Qed.

(** Every key of the schema literal has its branch in the chain, and the
    branch stores what the specification expects for the slot. *)
Lemma dispatch_recognized ex decode_image features key name pf spec :
  schema !! key = Some spec →
  features !! key = Some (parse_feature ex key spec) →
  dispatch decode_image features key name pf
  = Ok (<[name := expected_value ex decode_image key spec]> pf).
Proof.
  intros Hk Hf. apply schema_lookup_items in Hk. unfold schema_items in Hk.
  repeat (apply elem_of_cons in Hk as [Hk|Hk];
    [ injection Hk as -> ->;
      unfold dispatch, store_item, store_values, store_image, getitem;
      cbn [String.eqb Ascii.eqb Bool.eqb]; rewrite Hf;
      by destruct decode_image
    | ]).
  by apply elem_of_nil in Hk.
Qed.

(** A key outside the schema matches no branch. *)
Lemma dispatch_unrecognized decode_image features key name pf :
  schema !! key = None →
  dispatch decode_image features key name pf = Ok pf.
Proof.
  intros Hk. unfold dispatch.
  repeat match goal with
  | |- context [String.eqb key ?s] =>
      destruct (String.eqb_spec key s) as [->|_]; [by vm_compute in Hk|]
  end.
  done.
Qed.

(** The flag only matters in the branch of the image-bytes key. *)
Lemma dispatch_flag_irrelevant features key name pf :
  key ≠ "image/encoded" →
  dispatch true features key name pf = dispatch false features key name pf.
Proof.
  intros Hne. unfold dispatch.
  by destruct (String.eqb_spec key "image/encoded").
Qed.

(** The second loop on recognized keys: it never fails, it binds exactly
    the requested names on top of what it started from, and a name holds
    the value of the last pair that carries it. *)
Lemma fill_parsed_features_recognized ex decode_image features fetch pf :
  Forall (λ kn, ∃ spec, schema !! kn.1 = Some spec
                        ∧ features !! kn.1 = Some (parse_feature ex kn.1 spec)) fetch →
  ∃ m, fill_parsed_features decode_image features fetch pf = Ok m
       ∧ dom m = dom pf ∪ list_to_set fetch.*2
       ∧ (∀ name, name ∉ fetch.*2 → m !! name = pf !! name)
       ∧ (∀ before key name after,
            fetch = before ++ (key, name) :: after → name ∉ after.*2 →
            ∃ spec, schema !! key = Some spec
                    ∧ m !! name = Some (expected_value ex decode_image key spec)).
Proof.
  revert pf. induction fetch as [|[k n] rest IH]; intros pf Hall.
  - exists pf. split_and!.
    + reflexivity.
    + rewrite fmap_nil, list_to_set_nil. by rewrite (right_id_L ∅ (∪)).
    + reflexivity.
    + intros before key name after Heq. by destruct before.
  - apply Forall_cons in Hall as [(spec & Hk & Hf) Hrest].
    change ((k, n).1) with k in Hk, Hf.
    cbn [fill_parsed_features].
    rewrite (dispatch_recognized ex _ _ _ _ _ spec Hk Hf). cbn [mbind result_bind].
    destruct (IH (<[n := expected_value ex decode_image k spec]> pf) Hrest)
      as (m & Hm & Hdom & Hkeep & Hlast).
    exists m. split_and!.
    + exact Hm.
    + rewrite Hdom, dom_insert_L, fmap_cons, list_to_set_cons.
      change ((k, n).2) with n. by rewrite (assoc_L (∪)), (comm_L (∪) (dom pf)).
    + intros name Hname. rewrite fmap_cons in Hname.
      apply not_elem_of_cons in Hname as [Hne Hname].
      rewrite (Hkeep name Hname). apply lookup_insert_ne.
      intros Heq. apply Hne. symmetry. exact Heq.
    + intros [|[k0 n0] before] key name after Heq Hafter.
      * injection Heq as -> -> ->. exists spec. split; [exact Hk|].
        rewrite (Hkeep name Hafter). apply lookup_insert_eq.
      * injection Heq as -> -> ->. by apply (Hlast before key name after).
Qed.

(** The whole call on recognized keys. *)
Lemma decode_serialized_example_recognized ex fetch decode_image :
  Forall (λ kn, recognized kn.1) fetch → fetch ≠ [] →
  ∃ m, decode_serialized_example ex fetch decode_image = Ok m
       ∧ dom m = list_to_set fetch.*2
       ∧ (∀ before key name after,
            fetch = before ++ (key, name) :: after → name ∉ after.*2 →
            ∃ spec, schema !! key = Some spec
                    ∧ m !! name = Some (expected_value ex decode_image key spec)).
Proof.
  intros Hall Hnonempty. unfold decode_serialized_example.
  destruct (build_feature_map_recognized fetch ∅ Hall) as (fm & -> & Hfm).
  cbn [mbind result_bind].
  destruct (parse_single_example_returns ex fm) as [features Hparse].
  { destruct fetch as [|[k n] rest]; [congruence|]. intros Hempty.
    apply Forall_cons in Hall as [[spec Hk] _].
    change ((k, n).1) with k in Hk.
    pose proof (Hfm k) as Hlook. rewrite Hempty, lookup_empty in Hlook.
    rewrite decide_True, Hk in Hlook; [discriminate Hlook|].
    rewrite fmap_cons. apply list_elem_of_here. }
  rewrite Hparse. cbn [mbind result_bind].
  destruct (fill_parsed_features_recognized ex decode_image
              features fetch ∅) as (m & Hm & Hdom & _ & Hlast).
  - apply Forall_forall. intros [k n] Hin.
    pose proof (proj1 (Forall_forall _ _) Hall _ Hin) as [spec Hk].
    change ((k, n).1) with k in *. exists spec. split; [exact Hk|].
    rewrite (parse_single_example_lookup _ _ _ _ Hparse), Hfm, decide_True, Hk;
      [reflexivity|].
    apply list_elem_of_fmap. exists (k, n). split; [reflexivity|exact Hin].
  - exists m. split_and!; [exact Hm| |exact Hlast].
    by rewrite Hdom, dom_empty_L, (left_id_L ∅ (∪)).
Qed.

(** An empty request gets as far as the parse step and is refused there. *)
Lemma decode_serialized_example_empty ex decode_image :
  decode_serialized_example ex [] decode_image
  = Raise (ValueError "Missing features.").
Proof. reflexivity. Qed.

Lemma split_not_nil {A} (before after : list A) (x : A) :
  before ++ x :: after ≠ [].
Proof. by destruct before. Qed.

Lemma variable_length_keys_in_schema key :
  key ∈ variable_length_keys → ∃ dt, schema !! key = Some (VarLenFeature dt).
Proof.
  intros Hk. unfold variable_length_keys in Hk.
  repeat (apply elem_of_cons in Hk as [->|Hk]; [eexists; by vm_compute|]).
  by apply elem_of_nil in Hk.
Qed.

(** C1.  A request that contains a key outside the fixed schema makes the
    call fail with the lookup error [KeyError] on such a key; no mapping,
    and so no default value, is returned. *)
Theorem unrecognized_key_raises_KeyError ex fetch decode_image :
  Exists (λ kn, ¬ recognized kn.1) fetch →
  ∃ key, decode_serialized_example ex fetch decode_image = Raise (KeyError key)
         ∧ ¬ recognized key ∧ key ∈ fetch.*1.
Proof.
  intros Hex. unfold decode_serialized_example.
  destruct (build_feature_map_unrecognized fetch ∅) as (key & -> & Hnone & Hin).
  - eapply Exists_impl; [exact Hex|]. intros [k n] Hk.
    by apply eq_None_not_Some.
  - exists key. split_and!; [reflexivity| |exact Hin].
    unfold recognized. rewrite Hnone. by intros [? ?].
Qed.

Lemma unrecognized_key_raises_KeyError_witness :
  Exists (λ kn, ¬ recognized kn.1) [("image/height", "h"); ("image/depth", "d")]
  ∧ ∃ key, decode_serialized_example (Serialized "record")
             [("image/height", "h"); ("image/depth", "d")] true
           = Raise (KeyError key)
           ∧ ¬ recognized key
           ∧ key ∈ [("image/height", "h"); ("image/depth", "d")].*1.
Proof.
  assert (Exists (λ kn, ¬ recognized kn.1)
            [("image/height", "h"); ("image/depth", "d")]) as Hex.
  { apply Exists_cons_tl, Exists_cons_hd. intros [spec Hspec].
    vm_compute in Hspec. discriminate Hspec. }
  split; [exact Hex|].
  apply (unrecognized_key_raises_KeyError (Serialized "record") _ true Hex).
Defined.

(** The last pair that carries a requested name. *)
Lemma last_pair_with_name fetch name :
  name ∈ fetch.*2 →
  ∃ before key after, fetch = before ++ (key, name) :: after ∧ name ∉ after.*2.
Proof.
  induction fetch as [|[k n] rest IH]; intros Hin.
  - by apply elem_of_nil in Hin.
  - destruct (decide (name ∈ rest.*2)) as [Hrest|Hrest].
    + destruct (IH Hrest) as (before & key & after & -> & Hafter).
      by exists ((k, n) :: before), key, after.
    + rewrite fmap_cons in Hin. apply elem_of_cons in Hin as [->|Hin]; [|done].
      by exists [], k, rest.
Qed.

(** C6, as stated, fails at the empty request: all of its keys are
    recognized, and [tf.parse_single_example] refuses the empty feature
    map it leads to. *)
Lemma empty_request_is_refused :
  Forall (λ kn : string * string, recognized kn.1) []
  ∧ decode_serialized_example sample_record [] true
    = Raise (ValueError "Missing features.")
  ∧ ¬ claimed_full_return.
Proof.
  split_and!.
  - apply Forall_nil_2.
  - reflexivity.
  - intros Hclaim.
    destruct (Hclaim sample_record [] true (Forall_nil_2 _)) as (m & Hm & _).
    rewrite decode_serialized_example_empty in Hm. discriminate Hm.
Qed.

(** C6, amended.  When the request is not empty and every requested key is
    a schema key, the call returns a mapping whose keys are exactly the
    requested output names, and every name is bound to the decoded value of
    a schema key it was requested for: of the last such pair when a name is
    requested more than once, and so of every pair when the names are
    distinct.  Every key of the schema has a branch in the dispatch, so no
    pair is dropped. *)
Theorem recognized_request_fully_returned ex fetch decode_image :
  Forall (λ kn, recognized kn.1) fetch → fetch ≠ [] →
  ∃ m, decode_serialized_example ex fetch decode_image = Ok m
       ∧ dom m = list_to_set fetch.*2
       ∧ (∀ name, name ∈ fetch.*2 →
            ∃ key spec, (key, name) ∈ fetch ∧ schema !! key = Some spec
                        ∧ m !! name = Some (expected_value ex decode_image key spec))
       ∧ (∀ before key name after,
            fetch = before ++ (key, name) :: after → name ∉ after.*2 →
            ∃ spec, schema !! key = Some spec
                    ∧ m !! name = Some (expected_value ex decode_image key spec))
       ∧ (NoDup fetch.*2 →
          ∀ key name, (key, name) ∈ fetch →
            ∃ spec, schema !! key = Some spec
                    ∧ m !! name = Some (expected_value ex decode_image key spec)).
Proof.
  intros Hall Hnonempty.
  destruct (decode_serialized_example_recognized ex fetch decode_image Hall
              Hnonempty) as (m & Hm & Hdom & Hlast).
  exists m. split_and!; [exact Hm|exact Hdom| |exact Hlast|].
  - intros name Hname.
    destruct (last_pair_with_name fetch name Hname)
      as (before & key & after & Hsplit & Hafter).
    destruct (Hlast before key name after Hsplit Hafter) as (spec & Hspec & Hval).
    exists key, spec. split_and!; [|exact Hspec|exact Hval].
    rewrite Hsplit. apply elem_of_app. right. apply list_elem_of_here.
  - intros Hnodup key name Hin.
    apply list_elem_of_split in Hin as (before & after & Hsplit).
    apply (Hlast before key name after Hsplit).
    rewrite Hsplit, fmap_app, fmap_cons in Hnodup.
    apply NoDup_app in Hnodup as (_ & _ & Hnodup).
    by apply NoDup_cons in Hnodup as [Hnotin _].
Qed.

Lemma sample_fetch_recognized : Forall (λ kn, recognized kn.1) sample_fetch.
Proof. repeat constructor; eexists; vm_compute; reflexivity. Defined.

Lemma sample_fetch_nonempty : sample_fetch ≠ [].
Proof. discriminate. Defined.

Lemma recognized_request_fully_returned_witness :
  Forall (λ kn, recognized kn.1) sample_fetch
  ∧ sample_fetch ≠ []
  ∧ ∃ m, decode_serialized_example sample_record sample_fetch true = Ok m
       ∧ dom m = list_to_set sample_fetch.*2
       ∧ (∀ name, name ∈ sample_fetch.*2 →
            ∃ key spec, (key, name) ∈ sample_fetch ∧ schema !! key = Some spec
                        ∧ m !! name = Some (expected_value sample_record true key spec))
       ∧ (∀ before key name after,
            sample_fetch = before ++ (key, name) :: after → name ∉ after.*2 →
            ∃ spec, schema !! key = Some spec
                    ∧ m !! name = Some (expected_value sample_record true key spec))
       ∧ (NoDup sample_fetch.*2 →
          ∀ key name, (key, name) ∈ sample_fetch →
            ∃ spec, schema !! key = Some spec
                    ∧ m !! name = Some (expected_value sample_record true key spec)).
Proof.
  split; [exact sample_fetch_recognized|]. split; [exact sample_fetch_nonempty|].
  apply (recognized_request_fully_returned sample_record sample_fetch true
           sample_fetch_recognized sample_fetch_nonempty).
Defined.

(** C7.  The keys the specification lists as variable-length are exactly
    the [VarLenFeature] slots of the schema, and for each of them the call
    returns the [.values] component of the sparse parse result, a flat
    (rank 1) tensor, untouched by any further operation. *)
Theorem variable_length_fields_are_flat_values
    ex fetch decode_image before key name after :
  Forall (λ kn, recognized kn.1) fetch →
  fetch = before ++ (key, name) :: after → name ∉ after.*2 →
  key ∈ variable_length_keys →
  schema_varlen_keys = variable_length_keys
  ∧ ∃ m dt vals,
      decode_serialized_example ex fetch decode_image = Ok m
      ∧ schema !! key = Some (VarLenFeature dt)
      ∧ values_attr (parse_feature ex key (VarLenFeature dt)) = Ok (Tensor vals)
      ∧ m !! name = Some (Tensor vals)
      ∧ rank vals = 1.
Proof.
  intros Hall Hsplit Hlast Hkey. split; [reflexivity|].
  assert (fetch ≠ []) as Hnonempty by (rewrite Hsplit; apply split_not_nil).
  destruct (decode_serialized_example_recognized ex fetch decode_image Hall
              Hnonempty) as (m & Hm & _ & Hbound).
  destruct (Hbound before key name after Hsplit Hlast) as (spec & Hspec & Hname).
  destruct (variable_length_keys_in_schema key Hkey) as [dt Hdt].
  rewrite Hspec in Hdt. injection Hdt as ->.
  exists m, dt, (ParseSparseValues ex key dt).
  split_and!; [exact Hm|exact Hspec|reflexivity|exact Hname|reflexivity].
Qed.

Lemma variable_length_fields_are_flat_values_witness :
  Forall (λ kn, recognized kn.1) sample_fetch
  ∧ sample_fetch
    = app [("image/encoded", "image"); ("image/class/label", "label")]
          (("image/object/bbox/xmin", "xmin") :: [("image/object/count", "count")])
  ∧ ("xmin" ∉ [("image/object/count", "count")].*2)
  ∧ ("image/object/bbox/xmin" ∈ variable_length_keys)
  ∧ schema_varlen_keys = variable_length_keys
  ∧ ∃ m dt vals,
      decode_serialized_example sample_record sample_fetch false = Ok m
      ∧ schema !! "image/object/bbox/xmin" = Some (VarLenFeature dt)
      ∧ values_attr (parse_feature sample_record "image/object/bbox/xmin"
                       (VarLenFeature dt)) = Ok (Tensor vals)
      ∧ m !! "xmin" = Some (Tensor vals)
      ∧ rank vals = 1.
Proof.
  assert ("xmin" ∉ (snd <$> [("image/object/count", "count")])) as Hlast.
  { intros [Heq|Hin]%elem_of_cons; [discriminate Heq|by apply elem_of_nil in Hin]. }
  assert ("image/object/bbox/xmin" ∈ variable_length_keys) as Hkey.
  { apply list_elem_of_here. }
  split_and!; [exact sample_fetch_recognized|reflexivity|exact Hlast|exact Hkey|..].
  all: apply (variable_length_fields_are_flat_values sample_record sample_fetch false
         [("image/encoded", "image"); ("image/class/label", "label")]
         "image/object/bbox/xmin" "xmin" [("image/object/count", "count")]
         sample_fetch_recognized eq_refl Hlast Hkey).
Defined.

Lemma image_encoded_spec spec :
  schema !! "image/encoded" = Some spec → spec = FixedLenFeature [] tf_string.
Proof. intros Hspec. vm_compute in Hspec. by injection Hspec as <-. Qed.

Lemma expected_value_flag_irrelevant ex key spec :
  key ≠ "image/encoded" →
  expected_value ex true key spec = expected_value ex false key spec.
Proof.
  intros Hne. destruct spec as [shape dt|dt]; [|reflexivity].
  unfold expected_value. by destruct (String.eqb_spec key "image/encoded").
Qed.

(** C8.  [decode_image] defaults to on.  With it on the image-bytes field
    comes back as the decoded pixel tensor, with it off as the raw string
    tensor; every other requested field is bound to the same value under
    both settings. *)
Theorem decode_image_flag_controls_image_bytes ex fetch :
  Forall (λ kn, recognized kn.1) fetch → fetch ≠ [] →
  decode_serialized_example_call ex fetch None
  = decode_serialized_example ex fetch true
  ∧ (∀ b, decode_serialized_example_call ex fetch (Some b)
          = decode_serialized_example ex fetch b)
  ∧ ∃ m_on m_off,
      decode_serialized_example ex fetch true = Ok m_on
      ∧ decode_serialized_example ex fetch false = Ok m_off
      ∧ dom m_on = dom m_off
      ∧ ∀ before key name after,
          fetch = before ++ (key, name) :: after → name ∉ after.*2 →
          if decide (key = "image/encoded")
          then let raw := ParseDense ex "image/encoded" [] tf_string in
               m_on !! name = Some (Tensor (DecodeJpeg raw 3))
               ∧ m_off !! name = Some (Tensor raw)
          else m_on !! name = m_off !! name.
Proof.
  intros Hall Hnonempty. split; [reflexivity|]. split; [reflexivity|].
  destruct (decode_serialized_example_recognized ex fetch true Hall Hnonempty)
    as (m_on & Hon & Hdom_on & Hbound_on).
  destruct (decode_serialized_example_recognized ex fetch false Hall Hnonempty)
    as (m_off & Hoff & Hdom_off & Hbound_off).
  exists m_on, m_off. split_and!; [exact Hon|exact Hoff|congruence|].
  intros before key name after Hsplit Hlast.
  destruct (Hbound_on before key name after Hsplit Hlast) as (spec & Hspec & ->).
  destruct (Hbound_off before key name after Hsplit Hlast) as (spec' & Hspec' & ->).
  rewrite Hspec in Hspec'. injection Hspec' as <-.
  destruct (decide (key = "image/encoded")) as [->|Hne].
  - apply image_encoded_spec in Hspec as ->. split; reflexivity.
  - f_equal. by apply expected_value_flag_irrelevant.
Qed.

Lemma decode_image_flag_controls_image_bytes_witness :
  Forall (λ kn, recognized kn.1) sample_fetch
  ∧ sample_fetch ≠ []
  ∧ decode_serialized_example_call sample_record sample_fetch None
    = decode_serialized_example sample_record sample_fetch true
  ∧ (∀ b, decode_serialized_example_call sample_record sample_fetch (Some b)
          = decode_serialized_example sample_record sample_fetch b)
  ∧ ∃ m_on m_off,
      decode_serialized_example sample_record sample_fetch true = Ok m_on
      ∧ decode_serialized_example sample_record sample_fetch false = Ok m_off
      ∧ dom m_on = dom m_off
      ∧ ∀ before key name after,
          sample_fetch = before ++ (key, name) :: after → name ∉ after.*2 →
          if decide (key = "image/encoded")
          then let raw := ParseDense sample_record "image/encoded" [] tf_string in
               m_on !! name = Some (Tensor (DecodeJpeg raw 3))
               ∧ m_off !! name = Some (Tensor raw)
          else m_on !! name = m_off !! name.
Proof.
  split; [exact sample_fetch_recognized|]. split; [exact sample_fetch_nonempty|].
  apply (decode_image_flag_controls_image_bytes sample_record sample_fetch
           sample_fetch_recognized sample_fetch_nonempty).
Defined.

End Decoder.

(** * Properties of the exporter *)

Section ExporterRules.
Import Exporter ExportSpec.

Implicit Types (w : world) (evs : list event) (e : env) (a : args).

Lemma log_foldl_apply_event w evs :
  log (foldl apply_event w evs) = log w ++ evs.
Proof.
  revert w. induction evs as [|ev evs IH]; intros w; cbn [foldl].
  - by rewrite app_nil_r.
  - rewrite IH. cbn [apply_event log]. by rewrite <- app_assoc.
Qed.

Lemma dirs_foldl_apply_event w evs p :
  p ∈ dirs w → p ∈ dirs (foldl apply_event w evs).
Proof.
  revert w. induction evs as [|ev evs IH]; intros w Hp; cbn [foldl]; [exact Hp|].
  apply IH. destruct ev; cbn [apply_event dirs]; try exact Hp.
  apply elem_of_union_r, Hp.
Qed.

Lemma files_written_app evs1 evs2 :
  files_written (evs1 ++ evs2) = files_written evs1 ++ files_written evs2.
Proof. apply omap_app. Qed.

Lemma checkpoints_restored_app evs1 evs2 :
  checkpoints_restored (evs1 ++ evs2)
  = checkpoints_restored evs1 ++ checkpoints_restored evs2.
Proof. apply omap_app. Qed.

(** What a [wp] fact says about the run itself. *)
Lemma wp_elim {A} (m : M A) w Q :
  wp m w Q → ∃ evs, log (m w).2 = log w ++ evs ∧ Q (m w).1 evs.
Proof.
  intros (evs & Hw & HQ). exists evs. split; [|exact HQ].
  rewrite Hw. apply log_foldl_apply_event.
Qed.

Lemma wp_mono {A} (m : M A) w (Q Q' : result A → list event → Prop) :
  (∀ r evs, Q r evs → Q' r evs) → wp m w Q → wp m w Q'.
Proof. intros HQ (evs & Hw & Hr). exists evs. split; [exact Hw|]. by apply HQ. Qed.

Lemma wp_ret {A} (v : A) w Q : Q (Ok v) [] → wp (mret v) w Q.
Proof. intros HQ. by exists []. Qed.

Lemma wp_raise {A} (x : exn) w (Q : result A → list event → Prop) :
  Q (Raise x) [] → wp (raise x) w Q.
Proof. intros HQ. by exists []. Qed.

Lemma wp_bind {A B} (m : M A) (f : A → M B) w Q :
  wp m w (λ r evs1,
    match r with
    | Ok v => wp (f v) (foldl apply_event w evs1) (λ r' evs2, Q r' (evs1 ++ evs2))
    | Raise x => Q (Raise x) evs1
    end) →
  wp (m ≫= f) w Q.
Proof.
  intros (evs1 & Hw & Hr). unfold wp, mbind, M_bind.
  destruct (m w) as [[v|x] w1]; cbn [fst snd] in *; subst w1.
  - destruct Hr as (evs2 & Hw2 & HQ). exists (evs1 ++ evs2).
    rewrite foldl_app. by split.
  - by exists evs1.
Qed.

Lemma wp_event {A} (m : M A) (v : A) (ev : event) w Q :
  (∀ w', m w' = (Ok v, apply_event w' ev)) → Q (Ok v) [ev] → wp m w Q.
Proof. intros Hm HQ. exists [ev]. by rewrite Hm. Qed.

Lemma wp_framework_makedirs e p w Q :
  Q (Ok ()) [Makedirs p (made_with e p)] → wp (framework_makedirs e p) w Q.
Proof. by apply wp_event. Qed.

Lemma wp_framework_write p w Q :
  Q (Ok ()) [WriteFile p] → wp (framework_write p) w Q.
Proof. by apply wp_event. Qed.

Lemma wp_makedirs e p w Q :
  (os_raises e (OsMakedirs p) = None → Q (Ok ()) [Makedirs p (made_with e p)]) →
  (∀ x, os_raises e (OsMakedirs p) = Some x → Q (Raise x) []) →
  wp (makedirs e p) w Q.
Proof.
  intros Hok Hraise. unfold makedirs.
  destruct (os_raises e (OsMakedirs p)) as [x|];
    [apply wp_raise|apply wp_framework_makedirs]; auto.
Qed.

Lemma wp_write_file e p w Q :
  (os_raises e (OsOpen p) = None → Q (Ok ()) [WriteFile p]) →
  (∀ x, os_raises e (OsOpen p) = Some x → Q (Raise x) []) →
  wp (write_file e p) w Q.
Proof.
  intros Hok Hraise. unfold write_file.
  destruct (os_raises e (OsOpen p)) as [x|];
    [apply wp_raise|apply wp_framework_write]; auto.
Qed.

Lemma wp_emit_restore ckpt w Q :
  Q (Ok ()) [Restore ckpt] → wp (emit (Restore ckpt)) w Q.
Proof. by apply wp_event. Qed.

Lemma wp_emit_convert src dst w Q :
  Q (Ok ()) [Convert src dst] → wp (emit (Convert src dst)) w Q.
Proof. by apply wp_event. Qed.

Lemma wp_path_exists p w Q :
  Q (Ok (bool_decide (p ∈ dirs w ∪ files w))) [] → wp (path_exists p) w Q.
Proof. intros HQ. by exists []. Qed.

Lemma wp_isdir p w Q :
  Q (Ok (bool_decide (p ∈ dirs w))) [] → wp (isdir p) w Q.
Proof. intros HQ. by exists []. Qed.

Lemma wp_call_tf e c w Q :
  (tf_raises e c = None → Q (Ok ()) []) →
  (∀ x, tf_raises e c = Some x → Q (Raise x) []) →
  wp (call_tf e c) w Q.
Proof.
  intros Hok Hraise. unfold call_tf.
  destruct (tf_raises e c) as [x|]; [apply wp_raise|apply wp_ret]; auto.
Qed.

Lemma wp_py_assert (cond : bool) msg w Q :
  (cond = true → Q (Ok ()) []) →
  (cond = false → Q (Raise (AssertionError msg)) []) →
  wp (py_assert cond msg) w Q.
Proof.
  intros Hok Hraise. unfold py_assert.
  destruct cond; [apply wp_ret|apply wp_raise]; auto.
Qed.

Lemma wp_read_local {A} name (v : option A) w Q :
  (∀ x, v = Some x → Q (Ok x) []) →
  (v = None → Q (Raise (UnboundLocalError name)) []) →
  wp (read_local name v) w Q.
Proof.
  intros Hok Hraise. unfold read_local.
  destruct v; [apply wp_ret|apply wp_raise]; auto.
Qed.

Lemma wp_if {A} (b : bool) (m1 m2 : M A) w Q :
  (b = true → wp m1 w Q) → (b = false → wp m2 w Q) →
  wp (if b then m1 else m2) w Q.
Proof. destruct b; auto. Qed.

End ExporterRules.

Section ExporterSteps.
Import Exporter ExportSpec.

Implicit Types (w : world) (evs : list event) (e : env) (a : args).

Ltac wp_step :=
  lazymatch goal with
  | |- wp (mbind _ _) _ _ => apply wp_bind
  | |- wp (mret _) _ _ => apply wp_ret
  | |- wp (raise _) _ _ => apply wp_raise
  | |- wp (call_tf _ _) _ _ => apply wp_call_tf; [intros ?|intros ? ?]
  | |- wp (framework_makedirs _ _) _ _ => apply wp_framework_makedirs
  | |- wp (framework_write _) _ _ => apply wp_framework_write
  | |- wp (makedirs _ _) _ _ => apply wp_makedirs; [intros ?|intros ? ?]
  | |- wp (write_file _ _) _ _ => apply wp_write_file; [intros ?|intros ? ?]
  | |- wp (emit (Restore _)) _ _ => apply wp_emit_restore
  | |- wp (emit (Convert _ _)) _ _ => apply wp_emit_convert
  | |- wp (path_exists _) _ _ => apply wp_path_exists
  | |- wp (py_assert _ _) _ _ => apply wp_py_assert; intros ?
  | |- wp (read_local _ _) _ _ => apply wp_read_local; [intros ? ?|intros ?]
  | |- wp (if _ then _ else _) _ _ => apply wp_if; intros ?
  end; cbn beta iota zeta.

Ltac wp_run := repeat wp_step.

(** Lines 203-209: a directory is replaced by its latest checkpoint, and
    the call stops when it has none. *)
Lemma resolve_checkpoint_spec e ckpt w :
  wp (resolve_checkpoint e ckpt) w (λ r evs,
    evs = []
    ∧ r = if bool_decide (ckpt ∈ dirs w)
          then match latest_checkpoint e ckpt with
               | Some found => Ok found
               | None => Raise (checkpoint_not_found ckpt)
               end
          else Ok ckpt).
Proof.
  unfold resolve_checkpoint. apply wp_bind, wp_isdir. cbn beta iota zeta.
  destruct (bool_decide (ckpt ∈ dirs w)).
  - destruct (latest_checkpoint e ckpt); [apply wp_ret|apply wp_raise]; by split.
  - apply wp_ret. by split.
Qed.

(** Lines 222-275. *)
Lemma serving_branch_spec e a ckpt w :
  wp (serving_branch e a ckpt) w (serving_post e a ckpt).
Proof.
  unfold serving_branch, serving_post. wp_run.
  all: cbn [app files_written checkpoints_restored omap]; eauto 10.
Qed.

(** Lines 277-346. *)
Lemma frozen_branch_spec e a ckpt w :
  wp (frozen_branch e a ckpt) w (frozen_post e a w ckpt).
Proof.
  unfold frozen_branch, tflite_step, frozen_post. wp_run.
  all: cbn [app files_written checkpoints_restored omap].
  all: repeat match goal with
       | H : export_tflite _ = _ |- _ => rewrite H in *
       | H : bool_decide _ = true |- _ => apply bool_decide_eq_true in H
       | H : bool_decide _ = false |- _ => apply bool_decide_eq_false in H
       end.
  all: try (split_and!; [reflexivity..|]; intros; by auto).
  all: (split; [first [by left|by right]|]).
  all: try (left; eexists; split; [eassumption|by auto]).
  all: try solve [right; left; eexists; split; [eassumption|];
                  split; [reflexivity|];
                  first [left; split_and!; [reflexivity|assumption|reflexivity]
                        |right; left; split; reflexivity
                        |right; right; split; reflexivity]].
  all: right; right; split_and!; try reflexivity.
  all: by destruct (batch_size a) as [b|]; [exfalso; auto|].
Qed.

(** Lines 349-369. *)
Lemma coreml_step_spec e a l w :
  wp (coreml_step e a l) w (coreml_post e a l).
Proof.
  unfold coreml_step, coreml_post. wp_run.
  all: cbn [app files_written checkpoints_restored omap].
  all: (split; [reflexivity|]).
  all: repeat match goal with
       | H : tfcoreml_importable _ = _ |- _ => rewrite H in *
       | H : save_dir _ = _ |- _ => rewrite H in *
       | H : bool_decide _ = true |- _ => apply bool_decide_eq_true in H
       | H : bool_decide _ = false |- _ => apply bool_decide_eq_false in H
       end.
  all: destruct (batch_size a) as [b|] eqn:Hb; try congruence.
  all: destruct (raveled_input a) eqn:Hr; try congruence.
  all: try match goal with H : ¬ _ |- _ => by destruct H end.
  all: try by auto.
  split_and!; [reflexivity|congruence|reflexivity|]. by eauto.
Qed.

(** The whole call, lines 71-369. *)
Lemma export_spec e a w : wp (export e a) w (export_outcome e a w).
Proof.
  unfold export.
  apply wp_bind, wp_path_exists. cbn beta iota.
  apply wp_bind.
  apply (wp_mono _ _ (λ r evs,
    match r with
    | Ok _ => prelude e a w evs
    | Raise x => evs = [] ∧ (export_dir a ∉ dirs w ∪ files w)
                 ∧ os_raises e (OsMakedirs (export_dir a)) = Some x
    end)).
  2:{ unfold prelude, export_dir_ready. case_bool_decide as Hex.
      - apply wp_ret. split; [by left|reflexivity].
      - apply wp_makedirs; [intros Hos|intros x Hos].
        + split; [by right|reflexivity].
        + by split_and!. }
  intros [[]|x] pre Hpre;
    [|destruct Hpre as (-> & Hex & Hos); by apply stops_at_export_dir].
  cbn [app foldl].
  apply wp_bind, wp_call_tf; [intros Hgraph|intros x Hgraph];
    cbn beta iota; cbn [app]; rewrite ?app_nil_r.
  2:{ by apply stops_in_graph. }
  apply wp_bind.
  eapply wp_mono; [|apply resolve_checkpoint_spec].
  intros rc evs [-> Hrc]. cbn beta.
  assert (resolved e a w pre rc) as Hres by exact Hrc. clear Hrc.
  destruct rc as [ckpt|x]; cbn [app]; rewrite ?app_nil_r;
    [|by apply stops_without_checkpoint].
  apply wp_bind, wp_call_tf; [intros Hsess|intros x Hsess];
    cbn beta iota; cbn [app]; rewrite ?app_nil_r.
  2:{ by eapply stops_in_session. }
  apply wp_bind.
  apply (wp_mono _ _ (branch_post e a (foldl apply_event w pre) ckpt)).
  2:{ unfold branch_post. destruct (export_for_serving a);
      [apply serving_branch_spec|apply frozen_branch_spec]. }
  intros [l|x] evb Hbranch; [|by eapply stops_in_branch].
  destruct (export_coreml a) eqn:Hcoreml.
  - eapply wp_mono; [|apply coreml_step_spec].
    intros r evc Hc. by eapply ends_in_coreml.
  - apply wp_ret. rewrite app_nil_r. by eapply ends_after_branch.
Qed.

End ExporterSteps.

Section ExporterClaims.
Import Exporter ExportSpec.

Implicit Types (w : world) (evs : list event) (e : env) (a : args).

(** Every run of [export] ends in one of the ways of [export_outcome]. *)
Lemma export_run e a w :
  ∃ evs, log (export e a w).2 = log w ++ evs
         ∧ export_outcome e a w (export e a w).1 evs.
Proof. apply wp_elim, export_spec. Qed.

Lemma prelude_writes_nothing e a w pre :
  prelude e a w pre → files_written pre = [] ∧ checkpoints_restored pre = [].
Proof. intros [_ ->]. by destruct (bool_decide _). Qed.

Lemma prelude_ready e a w pre : prelude e a w pre → export_dir_ready e a w.
Proof. by intros [Hready _]. Qed.

(** Lines 71-73 cannot both pass and raise. *)
Lemma export_dir_not_ready e a w x :
  export_dir a ∉ dirs w ∪ files w →
  os_raises e (OsMakedirs (export_dir a)) = Some x →
  ¬ export_dir_ready e a w.
Proof. intros Hex Hos [Hin|Hnone]; [by apply Hex|congruence]. Qed.

Lemma resolved_directory e a w pre r :
  checkpoint_path a ∈ dirs w → resolved e a w pre r →
  r = match latest_checkpoint e (checkpoint_path a) with
      | Some found => Ok found
      | None => Raise (checkpoint_not_found (checkpoint_path a))
      end.
Proof.
  intros Hdir ->. rewrite bool_decide_eq_true_2; [reflexivity|].
  by apply dirs_foldl_apply_event.
Qed.

(** The file names of one directory are told apart by their last part. *)
Lemma path_join_file_inj dir f g :
  starts_with_slash f = false → starts_with_slash g = false →
  path_join dir f = path_join dir g → f = g.
Proof.
  unfold path_join. intros -> ->.
  destruct (String.eqb dir "" || ends_with_slash dir); intros Heq.
  - by apply (inj (String.app dir)) in Heq.
  - apply (inj (String.app dir)) in Heq. by apply (inj (String.app "/")) in Heq.
Qed.

Lemma coreml_path_fresh a p :
  p = frozen_graph_path a ∨ p = tflite_path a ∨ p = bundle_path a →
  p ≠ coreml_path a.
Proof.
  unfold frozen_graph_path, tflite_path, bundle_path, coreml_path.
  intros [->|[->| ->]] Heq; by apply path_join_file_inj in Heq.
Qed.

Lemma tflite_path_fresh a p :
  p = frozen_graph_path a ∨ p = bundle_path a → p ≠ tflite_path a.
Proof.
  unfold frozen_graph_path, tflite_path, bundle_path.
  intros [->| ->] Heq; by apply path_join_file_inj in Heq.
Qed.

(** What a branch that returned has written. *)
Lemma branch_post_ok_files e a w ckpt l evb :
  branch_post e a w ckpt (Ok l) evb →
  checkpoints_restored evb = [ckpt]
  ∧ (export_for_serving a = true ∧ l = serving_locals a
     ∧ files_written evb = [bundle_path a]
     ∨ export_for_serving a = false ∧ l = frozen_locals a
       ∧ files_written evb
         = frozen_graph_path a :: (if export_tflite a then [tflite_path a] else [])
       ∧ (export_tflite a = true → batch_size a ≠ None)).
Proof.
  unfold branch_post. destruct (export_for_serving a).
  - intros [-> ->]. split; [reflexivity|]. by left.
  - intros (-> & Hr & Hf & Hb). split; [exact Hr|]. by right.
Qed.

(** What a branch that raised has written, and what it raised. *)
Lemma branch_post_raise_files e a w ckpt x evb :
  branch_post e a w ckpt (Raise x) evb →
  (files_written evb = [] ∨ files_written evb = [frozen_graph_path a])
  ∧ (checkpoints_restored evb = [] ∨ checkpoints_restored evb = [ckpt])
  ∧ (tf_raises e InitVariables = None → tf_raises e RestoreCheckpoint = None →
     checkpoints_restored evb = [ckpt])
  ∧ ((∃ c, tf_raises e c = Some x)
     ∨ (∃ c, os_raises e c = Some x)
     ∨ x = tflite_needs_batch_size ∧ export_for_serving a = false
       ∧ export_tflite a = true ∧ batch_size a = None).
Proof.
  assert (∀ c, tf_raises e c = Some x →
            checkpoints_restored evb = [ckpt]
            ∨ (c = InitVariables ∨ c = RestoreCheckpoint)
              ∧ checkpoints_restored evb = [] →
            (checkpoints_restored evb = [] ∨ checkpoints_restored evb = [ckpt])
            ∧ (tf_raises e InitVariables = None →
               tf_raises e RestoreCheckpoint = None →
               checkpoints_restored evb = [ckpt])) as Hrestored.
  { intros c Hc [Hr|[[-> | ->] Hr]]; (split; [by auto|]); intros Hi Hrc; congruence. }
  unfold branch_post. destruct (export_for_serving a).
  - intros (Hf & c & Hc & Hr). destruct (Hrestored c Hc Hr) as [H1 H2].
    split_and!; [by left|exact H1|exact H2|by eauto].
  - intros (Hf & Hcause).
    assert (files_written evb = [] ∨ files_written evb = [frozen_graph_path a])
      as Hf' by (destruct Hf as [?|[? _]]; auto).
    destruct Hcause as [(c & Hc & Hr)|[(c & Hc & Hr & _)|(-> & Ht & Hb & Hr & _)]].
    + destruct (Hrestored c Hc Hr) as [H1 H2].
      split_and!; [exact Hf'|exact H1|exact H2|by eauto].
    + split_and!; [exact Hf'|by right|by intros|by eauto].
    + split_and!; [exact Hf'|by right|by intros|by right; right].
Qed.

(** A branch that returned has written the files of the model, and a branch
    that raised has not. *)
Lemma branch_post_ok_complete e a w ckpt l evb :
  branch_post e a w ckpt (Ok l) evb → files_written evb = model_artifacts a.
Proof.
  intros Hb. unfold model_artifacts.
  apply branch_post_ok_files in Hb as [_ [(-> & _ & Hf)|(-> & _ & Hf & _)]];
    exact Hf.
Qed.

Lemma branch_post_raise_incomplete e a w ckpt x evb :
  branch_post e a w ckpt (Raise x) evb → files_written evb ≠ model_artifacts a.
Proof.
  unfold branch_post, model_artifacts. destruct (export_for_serving a).
  - intros [-> _]. discriminate.
  - intros [[-> |[-> ->]] _]; discriminate.
Qed.

(** A branch raises on a framework call, on a call into the operating
    system, or on the tflite assertion of line 333. *)
Lemma branch_post_raise_cause e a w ckpt x evb :
  branch_post e a w ckpt (Raise x) evb →
  (∀ c, tf_raises e c = None) →
  (export_for_serving a = false → frozen_os_calls_pass e a w) →
  x = tflite_needs_batch_size ∧ export_for_serving a = false
  ∧ export_tflite a = true ∧ batch_size a = None.
Proof.
  unfold branch_post. intros Hb Htf Hos.
  destruct (export_for_serving a).
  - destruct Hb as (_ & c & Hc & _). congruence.
  - destruct (Hos eq_refl) as (Hmk & Hpb & Htflite).
    destruct Hb as (_ & [(c & Hc & _)|[(c & Hc & _ & Hwhich)|(-> & Ht & Hb & _)]]).
    + congruence.
    + exfalso.
      destruct Hwhich as [(-> & Hnew & _)|[(-> & _)|(-> & Ht)]].
      * destruct Hmk as [Hin|Hnone]; [by apply Hnew|congruence].
      * congruence.
      * specialize (Htflite Ht). congruence.
    + by split_and!.
Qed.

(** Making the export directory leaves what was there. *)
Lemma prelude_keeps e a w pre :
  prelude e a w pre →
  files (foldl apply_event w pre) = files w
  ∧ dirs w ⊆ dirs (foldl apply_event w pre)
  ∧ dirs (foldl apply_event w pre)
    ⊆ dirs w ∪ {[export_dir a]} ∪ made_with e (export_dir a).
Proof.
  intros [_ ->]. destruct (bool_decide _); cbn [foldl apply_event dirs files].
  - split; [reflexivity|]. split; intros p Hp; [exact Hp|].
    by apply elem_of_union_l, elem_of_union_l.
  - split; [reflexivity|]. split; intros p Hp; [by apply elem_of_union_r|].
    apply elem_of_union in Hp as [Hp|Hp]; [|by apply elem_of_union_l, elem_of_union_l].
    apply elem_of_union in Hp as [Hp|Hp]; [|by apply elem_of_union_r].
    by apply elem_of_union_l, elem_of_union_r.
Qed.

Lemma frozen_os_calls_pass_after e a w pre :
  prelude e a w pre → frozen_os_calls_pass e a w →
  frozen_os_calls_pass e a (foldl apply_event w pre).
Proof.
  intros Hpre (Hmk & Hrest). split; [|exact Hrest].
  destruct Hmk as [Hin|Hnone]; [left|by right].
  destruct (prelude_keeps _ _ _ _ Hpre) as (Hfiles & Hdirs & _).
  rewrite Hfiles. apply elem_of_union in Hin as [Hin|Hin].
  - by apply elem_of_union_l, Hdirs.
  - by apply elem_of_union_r.
Qed.

Lemma resolved_available e a w pre r :
  checkpoint_available e a w → prelude e a w pre → resolved e a w pre r →
  ∃ ckpt, r = Ok ckpt.
Proof.
  intros Havail Hpre ->. case_bool_decide as Hdir; [|by eexists].
  destruct Havail as [found ->]; [|by eexists].
  destruct (prelude_keeps _ _ _ _ Hpre) as (_ & _ & Hdirs). by apply Hdirs.
Qed.

Lemma resolved_raise e a w pre x :
  resolved e a w pre (Raise x) → x = checkpoint_not_found (checkpoint_path a).
Proof.
  unfold resolved. destruct (bool_decide _); [|discriminate].
  destruct (latest_checkpoint e (checkpoint_path a)); [discriminate|congruence].
Qed.

(** C4.  When [checkpoint_path] is a directory, the call goes on with the
    latest checkpoint of that directory: that checkpoint, and no other, is
    what it restores, and it does restore it when nothing before line 215
    raises.  When the directory has no checkpoint the call fails before it
    restores or writes anything, and the exception is the [ValueError] that
    names the directory, unless making the export directory (line 73) or
    building the graph (lines 75-201) has raised already. *)
Theorem checkpoint_directory_resolved e a w :
  checkpoint_path a ∈ dirs w →
  ∃ evs, log (export e a w).2 = log w ++ evs
    ∧ match latest_checkpoint e (checkpoint_path a) with
      | Some found =>
          (checkpoints_restored evs = [] ∨ checkpoints_restored evs = [found])
          ∧ (export_dir_ready e a w →
             tf_raises e BuildGraph = None →
             tf_raises e CreateSession = None →
             tf_raises e InitVariables = None →
             tf_raises e RestoreCheckpoint = None →
             checkpoints_restored evs = [found])
      | None =>
          files_written evs = [] ∧ checkpoints_restored evs = []
          ∧ ∃ x, (export e a w).1 = Raise x
                 ∧ (os_raises e (OsMakedirs (export_dir a)) = Some x
                    ∨ tf_raises e BuildGraph = Some x
                    ∨ x = ValueError
                            ("Unable to find a model checkpoint in the directory "
                             +:+ checkpoint_path a))
                 ∧ (export_dir_ready e a w →
                    tf_raises e BuildGraph = None →
                    x = ValueError
                          ("Unable to find a model checkpoint in the directory "
                           +:+ checkpoint_path a))
      end.
Proof.
  intros Hdir.
  destruct (export_run e a w) as (evs & Hlog & Hout).
  exists evs. split; [exact Hlog|].
  destruct Hout as [x Hex Hos
                   |x pre Hpre Hg|x pre Hpre Hg Hres|x pre ckpt Hpre _ Hres Hs
                   |x pre ckpt evb Hpre _ Hres _ Hb
                   |pre ckpt l evb Hpre _ Hres _ Hb _
                   |pre ckpt l evb r evc Hpre _ Hres _ Hb _ Hc].
  { pose proof (export_dir_not_ready _ _ _ _ Hex Hos) as Hnot.
    destruct (latest_checkpoint e (checkpoint_path a)) as [found|].
    - split; [by left|]. intros Hready. by destruct Hnot.
    - split_and!; [reflexivity..|]. exists x.
      split_and!; [reflexivity|by left|]. intros Hready. by destruct Hnot. }
  all: destruct (prelude_writes_nothing _ _ _ _ Hpre) as [Hf Hr];
    try apply (resolved_directory _ _ _ _ _ Hdir) in Hres;
    destruct (latest_checkpoint e (checkpoint_path a)) as [found|];
    try discriminate Hres; try injection Hres as <-.
  - split; [by left|]. intros; congruence.
  - split_and!; [exact Hf|exact Hr|].
    exists x. split_and!; [reflexivity|by right; left|congruence].
  - injection Hres as ->. split_and!; [exact Hf|exact Hr|].
    exists (checkpoint_not_found (checkpoint_path a)).
    split_and!; [reflexivity|by right; right|by intros].
  - split; [by left|]. intros; congruence.
  - apply branch_post_raise_files in Hb as (_ & Hrb & Hreach & _).
    rewrite checkpoints_restored_app, Hr, app_nil_l. split; [exact Hrb|].
    intros _ _ _. exact Hreach.
  - apply branch_post_ok_files in Hb as [Hrb _].
    rewrite checkpoints_restored_app, Hr, Hrb. by split; [right|].
  - apply branch_post_ok_files in Hb as [Hrb _]. destruct Hc as [Hrc _].
    rewrite !checkpoints_restored_app, Hr, Hrb, Hrc. by split; [right|].
Qed.

Lemma checkpoint_directory_resolved_witness :
  checkpoint_path from_empty_directory ∈ dirs training_world
  ∧ ∃ evs, log (export quiet_env from_empty_directory training_world).2
           = log training_world ++ evs
    ∧ match latest_checkpoint quiet_env (checkpoint_path from_empty_directory) with
      | Some found =>
          (checkpoints_restored evs = [] ∨ checkpoints_restored evs = [found])
          ∧ (export_dir_ready quiet_env from_empty_directory training_world →
             tf_raises quiet_env BuildGraph = None →
             tf_raises quiet_env CreateSession = None →
             tf_raises quiet_env InitVariables = None →
             tf_raises quiet_env RestoreCheckpoint = None →
             checkpoints_restored evs = [found])
      | None =>
          files_written evs = [] ∧ checkpoints_restored evs = []
          ∧ ∃ x, (export quiet_env from_empty_directory training_world).1 = Raise x
                 ∧ (os_raises quiet_env (OsMakedirs (export_dir from_empty_directory))
                    = Some x
                    ∨ tf_raises quiet_env BuildGraph = Some x
                    ∨ x = ValueError
                            ("Unable to find a model checkpoint in the directory "
                             +:+ checkpoint_path from_empty_directory))
                 ∧ (export_dir_ready quiet_env from_empty_directory training_world →
                    tf_raises quiet_env BuildGraph = None →
                    x = ValueError
                          ("Unable to find a model checkpoint in the directory "
                           +:+ checkpoint_path from_empty_directory))
      end.
Proof.
  assert (checkpoint_path from_empty_directory ∈ dirs training_world) as Hdir.
  { by vm_compute. }
  split; [exact Hdir|].
  apply (checkpoint_directory_resolved quiet_env from_empty_directory
           training_world Hdir).
Defined.

(** C2, as the specification states it, fails: the frozen graph is on disk
    when the tflite assertion fires, the coreml check comes later still, and
    in serving mode the tflite flag is not looked at. *)
Lemma batch_size_guard_comes_after_model_export :
  (export_tflite tflite_without_batch = true
   ∧ batch_size tflite_without_batch = None
   ∧ (export quiet_env tflite_without_batch empty_world).1
     = Raise tflite_needs_batch_size
   ∧ files_written (log (export quiet_env tflite_without_batch empty_world).2)
     = ["export/1/optimized_model.pb"]
   ∧ ¬ fails_before_writing quiet_env tflite_without_batch empty_world)
  ∧ (export_tflite serving_tflite_without_batch = true
     ∧ batch_size serving_tflite_without_batch = None
     ∧ (export quiet_env serving_tflite_without_batch empty_world).1 = Ok ()
     ∧ ¬ fails_before_writing quiet_env serving_tflite_without_batch empty_world)
  ∧ ¬ claimed_batch_size_guard.
Proof.
  assert (¬ fails_before_writing quiet_env tflite_without_batch empty_world) as Hno.
  { intros [_ Hfiles]. vm_compute in Hfiles. discriminate Hfiles. }
  split_and!.
  - reflexivity.
  - reflexivity.
  - vm_compute. reflexivity.
  - vm_compute. reflexivity.
  - exact Hno.
  - reflexivity.
  - reflexivity.
  - vm_compute. reflexivity.
  - intros [Hfail _]. vm_compute in Hfail. discriminate Hfail.
  - intros Hclaim. apply Hno, Hclaim; [by left|reflexivity].
Qed.

(** C2, amended.  Without a fixed batch size a tflite export in
    frozen-graph mode, and a coreml export in either mode, fail; neither the
    tflite nor the coreml artifact is written, and the only files the call
    can have written by then are the frozen graph or the serving bundle. *)
Theorem missing_batch_size_fails_without_converted_model e a w :
  batch_size a = None →
  export_for_serving a = false ∧ export_tflite a = true ∨ export_coreml a = true →
  ∃ evs, log (export e a w).2 = log w ++ evs
    ∧ is_ok (export e a w).1 = false
    ∧ (∀ p, p ∈ files_written evs → p = frozen_graph_path a ∨ p = bundle_path a)
    ∧ (tflite_path a ∉ files_written evs)
    ∧ (coreml_path a ∉ files_written evs).
Proof.
  intros Hbatch Hreq.
  destruct (export_run e a w) as (evs & Hlog & Hout).
  exists evs. split; [exact Hlog|].
  assert (is_ok (export e a w).1 = false
          ∧ ∀ p, p ∈ files_written evs → p = frozen_graph_path a ∨ p = bundle_path a)
    as [Hfail Hfiles].
  { destruct Hout as [x Hex Hos
                     |x pre Hpre Hg|x pre Hpre _ Hres|x pre ckpt Hpre _ Hres Hs
                     |x pre ckpt evb Hpre _ Hres _ Hb
                     |pre ckpt l evb Hpre _ Hres _ Hb Hcoreml
                     |pre ckpt l evb r evc Hpre _ Hres _ Hb Hcoreml Hc].
    { by split; [reflexivity|intros p Hp; apply elem_of_nil in Hp]. }
    all: destruct (prelude_writes_nothing _ _ _ _ Hpre) as [Hf _];
      rewrite ?files_written_app, ?Hf, ?app_nil_l.
    1-3: by split; [reflexivity|intros p Hp; apply elem_of_nil in Hp].
    - split; [reflexivity|].
      apply branch_post_raise_files in Hb as ([-> | ->] & _).
      + intros p Hp. by apply elem_of_nil in Hp.
      + intros p ->%list_elem_of_singleton. by left.
    - exfalso. destruct Hreq as [[Hs Ht]|?]; [|congruence].
      apply branch_post_ok_files in Hb as [_ [[? _]|(_ & _ & _ & Hfixed)]];
        [congruence|by apply Hfixed].
    - destruct Hc as [_ Hc].
      assert (is_ok r = false ∧ evc = []) as [Hr ->].
      { destruct r as [[]|x].
        - by destruct Hc as (_ & ? & _).
        - rewrite Hbatch in Hc.
          destruct (tfcoreml_importable e); by destruct Hc as [_ ->]. }
      split; [exact Hr|]. cbn [files_written omap]. rewrite app_nil_r.
      apply branch_post_ok_files in Hb
        as [_ [(_ & _ & ->)|(_ & _ & -> & Hfixed)]].
      + intros p ->%list_elem_of_singleton. by right.
      + destruct (export_tflite a); [by destruct Hfixed|].
        intros p ->%list_elem_of_singleton. by left. }
  split_and!; [exact Hfail|exact Hfiles|..].
  - intros Hin. by apply (tflite_path_fresh a _ (Hfiles _ Hin)).
  - intros Hin. apply (coreml_path_fresh a (coreml_path a)); [|reflexivity].
    destruct (Hfiles _ Hin); auto.
Qed.

Lemma missing_batch_size_fails_without_converted_model_witness :
  batch_size tflite_without_batch = None
  ∧ (export_for_serving tflite_without_batch = false
     ∧ export_tflite tflite_without_batch = true
     ∨ export_coreml tflite_without_batch = true)
  ∧ ∃ evs, log (export quiet_env tflite_without_batch empty_world).2
           = log empty_world ++ evs
    ∧ is_ok (export quiet_env tflite_without_batch empty_world).1 = false
    ∧ (∀ p, p ∈ files_written evs →
            p = frozen_graph_path tflite_without_batch
            ∨ p = bundle_path tflite_without_batch)
    ∧ (tflite_path tflite_without_batch ∉ files_written evs)
    ∧ (coreml_path tflite_without_batch ∉ files_written evs).
Proof.
  split; [reflexivity|]. split; [left; split; reflexivity|].
  apply (missing_batch_size_fails_without_converted_model quiet_env
           tflite_without_batch empty_world eq_refl).
  left. split; reflexivity.
Defined.

(** C3, as the specification states it, fails: the frozen graph is on disk
    when the raveled-input assertion fires. *)
Lemma raveled_guard_comes_after_model_export :
  export_coreml coreml_raveled = true
  ∧ raveled_input coreml_raveled = true
  ∧ (export quiet_env coreml_raveled empty_world).1 = Raise coreml_rejects_raveled
  ∧ files_written (log (export quiet_env coreml_raveled empty_world).2)
    = ["export/1/optimized_model.pb"]
  ∧ ¬ fails_before_writing quiet_env coreml_raveled empty_world
  ∧ ¬ claimed_raveled_guard.
Proof.
  assert (¬ fails_before_writing quiet_env coreml_raveled empty_world) as Hno.
  { intros [_ Hfiles]. vm_compute in Hfiles. discriminate Hfiles. }
  split_and!.
  - reflexivity.
  - reflexivity.
  - vm_compute. reflexivity.
  - vm_compute. reflexivity.
  - exact Hno.
  - intros Hclaim. apply Hno, Hclaim; reflexivity.
Qed.

(** C3, amended.  A coreml export with raveled input fails and never writes
    the coreml artifact; the files the call can have written by then are the
    frozen graph, the tflite artifact or the serving bundle. *)
Theorem raveled_coreml_export_fails_without_mlmodel e a w :
  export_coreml a = true → raveled_input a = true →
  ∃ evs, log (export e a w).2 = log w ++ evs
    ∧ is_ok (export e a w).1 = false
    ∧ (∀ p, p ∈ files_written evs →
            p = frozen_graph_path a ∨ p = tflite_path a ∨ p = bundle_path a)
    ∧ (coreml_path a ∉ files_written evs).
Proof.
  intros Hcoreml Hraveled.
  destruct (export_run e a w) as (evs & Hlog & Hout).
  exists evs. split; [exact Hlog|].
  assert (is_ok (export e a w).1 = false
          ∧ ∀ p, p ∈ files_written evs →
                 p = frozen_graph_path a ∨ p = tflite_path a ∨ p = bundle_path a)
    as [Hfail Hfiles].
  { destruct Hout as [x Hex Hos
                     |x pre Hpre Hg|x pre Hpre _ Hres|x pre ckpt Hpre _ Hres Hs
                     |x pre ckpt evb Hpre _ Hres _ Hb
                     |pre ckpt l evb Hpre _ Hres _ Hb Hnocoreml
                     |pre ckpt l evb r evc Hpre _ Hres _ Hb _ Hc].
    { by split; [reflexivity|intros p Hp; apply elem_of_nil in Hp]. }
    all: destruct (prelude_writes_nothing _ _ _ _ Hpre) as [Hf _];
      rewrite ?files_written_app, ?Hf, ?app_nil_l.
    1-3: by split; [reflexivity|intros p Hp; apply elem_of_nil in Hp].
    - split; [reflexivity|].
      apply branch_post_raise_files in Hb as ([-> | ->] & _).
      + intros p Hp. by apply elem_of_nil in Hp.
      + intros p ->%list_elem_of_singleton. by left.
    - congruence.
    - destruct Hc as [_ Hc].
      assert (is_ok r = false ∧ evc = []) as [Hr ->].
      { destruct r as [[]|x].
        - destruct Hc as (_ & _ & ? & _). congruence.
        - rewrite Hraveled in Hc.
          destruct (tfcoreml_importable e); [|by destruct Hc as [_ ->]].
          destruct (batch_size a); by destruct Hc as [_ ->]. }
      split; [exact Hr|]. cbn [files_written omap]. rewrite app_nil_r.
      apply branch_post_ok_files in Hb
        as [_ [(_ & _ & ->)|(_ & _ & -> & _)]].
      + intros p ->%list_elem_of_singleton. by right; right.
      + destruct (export_tflite a).
        * intros p [->|[->|[]%elem_of_nil]%elem_of_cons]%elem_of_cons; auto.
        * intros p ->%list_elem_of_singleton. by left. }
  split_and!; [exact Hfail|exact Hfiles|].
  intros Hin. by apply (coreml_path_fresh a _ (Hfiles _ Hin)).
Qed.

Lemma raveled_coreml_export_fails_without_mlmodel_witness :
  export_coreml coreml_raveled = true
  ∧ raveled_input coreml_raveled = true
  ∧ ∃ evs, log (export quiet_env coreml_raveled empty_world).2
           = log empty_world ++ evs
    ∧ is_ok (export quiet_env coreml_raveled empty_world).1 = false
    ∧ (∀ p, p ∈ files_written evs →
            p = frozen_graph_path coreml_raveled
            ∨ p = tflite_path coreml_raveled
            ∨ p = bundle_path coreml_raveled)
    ∧ (coreml_path coreml_raveled ∉ files_written evs).
Proof.
  split; [reflexivity|]. split; [reflexivity|].
  apply (raveled_coreml_export_fails_without_mlmodel quiet_env coreml_raveled
           empty_world eq_refl eq_refl).
Defined.

(** The files a branch writes are the frozen graph, the tflite artifact or
    the serving bundle, whichever way it ends. *)
Lemma branch_post_files_known e a w ckpt r evb :
  branch_post e a w ckpt r evb →
  ∀ p, p ∈ files_written evb →
       p = frozen_graph_path a ∨ p = tflite_path a ∨ p = bundle_path a.
Proof.
  destruct r as [l|x]; intros Hb p Hp.
  - apply branch_post_ok_files in Hb as [_ [(_ & _ & Hf)|(_ & _ & Hf & _)]];
      rewrite Hf in Hp.
    + apply list_elem_of_singleton in Hp. auto.
    + apply elem_of_cons in Hp as [?|Hp]; [by auto|].
      destruct (export_tflite a); [|by apply elem_of_nil in Hp].
      apply list_elem_of_singleton in Hp. auto.
  - apply branch_post_raise_files in Hb as ([Hf|Hf] & _); rewrite Hf in Hp.
    + by apply elem_of_nil in Hp.
    + apply list_elem_of_singleton in Hp. auto.
Qed.

Lemma coreml_path_not_among a (written : list string) :
  (∀ p, p ∈ written →
        p = frozen_graph_path a ∨ p = tflite_path a ∨ p = bundle_path a) →
  coreml_path a ∉ written.
Proof. intros Hknown Hin. by apply (coreml_path_fresh a _ (Hknown _ Hin)). Qed.

(** C9.  A coreml export in surroundings where [tfcoreml] cannot be
    imported always ends in an exception, and never writes the coreml
    artifact.  The exception is the [ValueError] that says so, unless the
    call has already stopped: on an error of a framework call or of a call
    into the operating system, on the missing checkpoint or on the tflite
    assertion, each with its own message.  When the files of the model are
    written, and so when none of these stops the call, it is that
    [ValueError]. *)
Theorem coreml_export_without_converter_fails e a w :
  export_coreml a = true → tfcoreml_importable e = false →
  ∃ evs x, log (export e a w).2 = log w ++ evs
    ∧ (export e a w).1 = Raise x
    ∧ (x = ValueError "Can't import tfcoreml, so we can't create a coreml model."
       ∨ x = checkpoint_not_found (checkpoint_path a)
       ∨ x = tflite_needs_batch_size
       ∨ (∃ c, tf_raises e c = Some x)
       ∨ (∃ c, os_raises e c = Some x))
    ∧ (files_written evs = model_artifacts a →
       x = ValueError "Can't import tfcoreml, so we can't create a coreml model.")
    ∧ ((∀ c, tf_raises e c = None) → os_calls_pass e a w →
       checkpoint_available e a w →
       (export_for_serving a = false → export_tflite a = true →
        batch_size a ≠ None) →
       files_written evs = model_artifacts a
       ∧ x = ValueError "Can't import tfcoreml, so we can't create a coreml model.")
    ∧ (coreml_path a ∉ files_written evs).
Proof.
  intros Hcoreml Himport.
  destruct (export_run e a w) as (evs & Hlog & Hout).
  exists evs.
  destruct Hout as [x Hex Hos
                   |x pre Hpre Hg|x pre Hpre _ Hres|x pre ckpt Hpre _ Hres Hs
                   |x pre ckpt evb Hpre _ Hres _ Hb
                   |pre ckpt l evb Hpre _ Hres _ Hb Hnocoreml
                   |pre ckpt l evb r evc Hpre _ Hres _ Hb _ Hc].
  { exists x. split_and!; [exact Hlog|reflexivity|by eauto 8| | |apply not_elem_of_nil].
    - unfold model_artifacts. destruct (export_for_serving a); discriminate.
    - intros _ [Hready _]. by destruct (export_dir_not_ready _ _ _ _ Hex Hos). }
  all: destruct (prelude_writes_nothing _ _ _ _ Hpre) as [Hf _];
    rewrite ?files_written_app, ?Hf, ?app_nil_l.
  - exists x. split_and!; [exact Hlog|reflexivity|by eauto 8| | |apply not_elem_of_nil].
    + unfold model_artifacts. destruct (export_for_serving a); discriminate.
    + intros Hquiet. congruence.
  - exists x. apply resolved_raise in Hres as Hx.
    split_and!; [exact Hlog|reflexivity|by auto| | |apply not_elem_of_nil].
    + unfold model_artifacts. destruct (export_for_serving a); discriminate.
    + intros _ _ Havail _.
      by destruct (resolved_available _ _ _ _ _ Havail Hpre Hres).
  - exists x. split_and!; [exact Hlog|reflexivity|by eauto 8| | |apply not_elem_of_nil].
    + unfold model_artifacts. destruct (export_for_serving a); discriminate.
    + intros Hquiet. congruence.
  - exists x. pose proof (branch_post_files_known _ _ _ _ _ _ Hb) as Hknown.
    pose proof (branch_post_raise_incomplete _ _ _ _ _ _ Hb) as Hpart.
    pose proof (branch_post_raise_cause _ _ _ _ _ _ Hb) as Hcause.
    apply branch_post_raise_files in Hb as (Hfb & _ & _ & Hx).
    split_and!; [exact Hlog|reflexivity| | | |].
    + destruct Hx as [?|[?|[-> _]]]; auto 8.
    + intros Hall. by destruct Hpart.
    + intros Hquiet [_ Hos] _ Htflite. exfalso.
      destruct Hcause as (_ & Hs & Ht & Hbatch); [exact Hquiet| |].
      * intros Hs. by apply frozen_os_calls_pass_after, Hos.
      * by destruct (Htflite Hs Ht).
    + by apply coreml_path_not_among.
  - congruence.
  - destruct Hc as [_ Hc]. destruct r as [[]|x].
    { destruct Hc as (? & _). congruence. }
    rewrite Himport in Hc. destruct Hc as [-> ->].
    exists tfcoreml_missing.
    change (files_written []) with (@nil string).
    rewrite app_nil_r in Hlog. rewrite !app_nil_r.
    split_and!; [exact Hlog|reflexivity|by left|by intros| |].
    + intros _ _ _ _. split; [|reflexivity].
      by eapply branch_post_ok_complete.
    + by eapply coreml_path_not_among, branch_post_files_known.
Qed.

Lemma coreml_export_without_converter_fails_witness :
  export_coreml coreml_raveled = true
  ∧ tfcoreml_importable env_without_tfcoreml = false
  ∧ ∃ evs x, log (export env_without_tfcoreml coreml_raveled empty_world).2
             = log empty_world ++ evs
    ∧ (export env_without_tfcoreml coreml_raveled empty_world).1 = Raise x
    ∧ (x = ValueError "Can't import tfcoreml, so we can't create a coreml model."
       ∨ x = checkpoint_not_found (checkpoint_path coreml_raveled)
       ∨ x = tflite_needs_batch_size
       ∨ (∃ c, tf_raises env_without_tfcoreml c = Some x)
       ∨ (∃ c, os_raises env_without_tfcoreml c = Some x))
    ∧ (files_written evs = model_artifacts coreml_raveled →
       x = ValueError "Can't import tfcoreml, so we can't create a coreml model.")
    ∧ ((∀ c, tf_raises env_without_tfcoreml c = None) →
       os_calls_pass env_without_tfcoreml coreml_raveled empty_world →
       checkpoint_available env_without_tfcoreml coreml_raveled empty_world →
       (export_for_serving coreml_raveled = false →
        export_tflite coreml_raveled = true →
        batch_size coreml_raveled ≠ None) →
       files_written evs = model_artifacts coreml_raveled
       ∧ x = ValueError "Can't import tfcoreml, so we can't create a coreml model.")
    ∧ (coreml_path coreml_raveled ∉ files_written evs).
Proof.
  split; [reflexivity|]. split; [reflexivity|].
  apply (coreml_export_without_converter_fails env_without_tfcoreml
           coreml_raveled empty_world eq_refl eq_refl).
Defined.

(** C10, as stated, fails: with serving and coreml both asked for, a call
    without a fixed batch size stops at the assertion of line 355, before
    line 358 reads [save_dir]. *)
Lemma serving_coreml_can_fail_before_save_dir :
  export_for_serving serving_coreml_without_batch = true
  ∧ export_coreml serving_coreml_without_batch = true
  ∧ (export quiet_env serving_coreml_without_batch empty_world).1
    = Raise coreml_needs_batch_size
  ∧ (export quiet_env serving_coreml_without_batch empty_world).1
    ≠ Raise (UnboundLocalError "save_dir")
  ∧ ¬ claimed_serving_coreml_failure.
Proof.
  assert ((export quiet_env serving_coreml_without_batch empty_world).1
          = Raise coreml_needs_batch_size) as Hrun.
  { vm_compute. reflexivity. }
  split_and!.
  - reflexivity.
  - reflexivity.
  - exact Hrun.
  - rewrite Hrun. discriminate.
  - intros Hclaim.
    specialize (Hclaim quiet_env serving_coreml_without_batch empty_world
                  eq_refl eq_refl).
    rewrite Hrun in Hclaim. discriminate Hclaim.
Qed.

(** C10, amended.  With serving and coreml both asked for, the coreml flag
    is not ignored: the call always fails, and never writes the coreml
    artifact.  When the serving bundle is written, and so when nothing
    stops the call before, the coreml step raises: the import error, one of
    its two assertions, or, when all three pass, the unbound-variable error
    for [save_dir], which the serving branch never assigns. *)
Theorem serving_with_coreml_fails_in_coreml_step e a w :
  export_for_serving a = true → export_coreml a = true →
  ∃ evs x, log (export e a w).2 = log w ++ evs
    ∧ (export e a w).1 = Raise x
    ∧ (coreml_path a ∉ files_written evs)
    ∧ (files_written evs = [] ∨ files_written evs = [bundle_path a])
    ∧ (files_written evs = [bundle_path a] →
       x = if tfcoreml_importable e then
             match batch_size a with
             | None => coreml_needs_batch_size
             | Some _ =>
                 if raveled_input a then coreml_rejects_raveled
                 else UnboundLocalError "save_dir"
             end
           else tfcoreml_missing)
    ∧ ((∀ c, tf_raises e c = None) → export_dir_ready e a w →
       checkpoint_available e a w →
       files_written evs = [bundle_path a]).
Proof.
  intros Hserving Hcoreml.
  destruct (export_run e a w) as (evs & Hlog & Hout).
  exists evs.
  destruct Hout as [x Hex Hos
                   |x pre Hpre Hg|x pre Hpre _ Hres|x pre ckpt Hpre _ Hres Hs
                   |x pre ckpt evb Hpre _ Hres _ Hb
                   |pre ckpt l evb Hpre _ Hres _ Hb Hnocoreml
                   |pre ckpt l evb r evc Hpre _ Hres _ Hb _ Hc].
  { exists x.
    split_and!; [exact Hlog|reflexivity|apply not_elem_of_nil|by left
                |discriminate|].
    intros _ Hready. by destruct (export_dir_not_ready _ _ _ _ Hex Hos). }
  all: destruct (prelude_writes_nothing _ _ _ _ Hpre) as [Hf _];
    rewrite ?files_written_app, ?Hf, ?app_nil_l.
  - exists x.
    split_and!; [exact Hlog|reflexivity|apply not_elem_of_nil|by left
                |discriminate|].
    intros Hquiet. congruence.
  - exists x.
    split_and!; [exact Hlog|reflexivity|apply not_elem_of_nil|by left
                |discriminate|].
    intros _ _ Havail.
    by destruct (resolved_available _ _ _ _ _ Havail Hpre Hres).
  - exists x.
    split_and!; [exact Hlog|reflexivity|apply not_elem_of_nil|by left
                |discriminate|].
    intros Hquiet. congruence.
  - exists x. unfold branch_post in Hb. rewrite Hserving in Hb.
    destruct Hb as (-> & c & Hc & _).
    split_and!; [exact Hlog|reflexivity|apply not_elem_of_nil|by left
                |discriminate|].
    intros Hquiet. congruence.
  - congruence.
  - pose proof (branch_post_files_known _ _ _ _ _ _ Hb) as Hknown.
    apply branch_post_ok_files in Hb
      as [_ [(_ & -> & Hfb)|(? & _)]]; [|congruence].
    destruct Hc as [_ Hc]. destruct r as [[]|x].
    { destruct Hc as (_ & _ & _ & dir & Hdir & _). discriminate Hdir. }
    cbn [save_dir serving_locals] in Hc.
    assert (files_written evc = []
            ∧ x = if tfcoreml_importable e then
                    match batch_size a with
                    | None => coreml_needs_batch_size
                    | Some _ =>
                        if raveled_input a then coreml_rejects_raveled
                        else UnboundLocalError "save_dir"
                    end
                  else tfcoreml_missing) as [-> Hx].
    { destruct (tfcoreml_importable e); [|by destruct Hc as [-> ->]].
      destruct (batch_size a); [|by destruct Hc as [-> ->]].
      destruct (raveled_input a); by destruct Hc as [-> ->]. }
    exists x. rewrite app_nil_r.
    split_and!; [exact Hlog|reflexivity|by apply coreml_path_not_among
                |by right|by intros|by intros].
Qed.

Lemma serving_with_coreml_fails_in_coreml_step_witness :
  export_for_serving serving_coreml = true
  ∧ export_coreml serving_coreml = true
  ∧ ∃ evs x, log (export quiet_env serving_coreml empty_world).2
             = log empty_world ++ evs
    ∧ (export quiet_env serving_coreml empty_world).1 = Raise x
    ∧ (coreml_path serving_coreml ∉ files_written evs)
    ∧ (files_written evs = [] ∨ files_written evs = [bundle_path serving_coreml])
    ∧ (files_written evs = [bundle_path serving_coreml] →
       x = if tfcoreml_importable quiet_env then
             match batch_size serving_coreml with
             | None => coreml_needs_batch_size
             | Some _ =>
                 if raveled_input serving_coreml then coreml_rejects_raveled
                 else UnboundLocalError "save_dir"
             end
           else tfcoreml_missing)
    ∧ ((∀ c, tf_raises quiet_env c = None) →
       export_dir_ready quiet_env serving_coreml empty_world →
       checkpoint_available quiet_env serving_coreml empty_world →
       files_written evs = [bundle_path serving_coreml]).
Proof.
  split; [reflexivity|]. split; [reflexivity|].
  apply (serving_with_coreml_fails_in_coreml_step quiet_env serving_coreml
           empty_world eq_refl eq_refl).
Defined.

End ExporterClaims.

(** * Image decoding in both files *)

Section ImageChannels.
Import DecodeExample DecodeSpec Exporter.

(** The channel cascade of [preprocess_image] (lines 104-133) ends with
    three channels for every image that has at least one. *)
Lemma preprocess_image_three_channels (size height width channels : nat) :
  (1 ≤ channels)%nat →
  preprocess_image size size [height; width; channels] = Ok [size; size; 3].
Proof.
  intros Hc. destruct channels as [|[|[|[|more]]]]; [lia|reflexivity..].
Qed.

(** C5.  With decoding on, the image-bytes field is bound to the
    [decode_jpeg] node built with [channels=3], whose output has three
    channels whatever number of channels the stored image has.  The
    exporter's own [preprocess_image] reaches the same: one (grayscale, also
    when decoded without a channel axis), two (grayscale and alpha), three
    (RGB) and four or more (RGB and alpha) channels all come out as three. *)
Theorem image_bytes_decoded_to_three_channels
    ex fetch before name after (stored size height width : nat) :
  Forall (λ kn, recognized kn.1) fetch →
  fetch = before ++ ("image/encoded", name) :: after → name ∉ after.*2 →
  (1 ≤ stored)%nat →
  (∃ m img,
     decode_serialized_example ex fetch true = Ok m
     ∧ m !! name = Some img
     ∧ decode_jpeg (Tensor (ParseDense ex "image/encoded" [] tf_string)) 3 = Ok img
     ∧ channels_of stored img = Some 3)
  ∧ preprocess_image size size [height; width; stored] = Ok [size; size; 3]
  ∧ preprocess_image size size [height; width] = Ok [size; size; 3].
Proof.
  intros Hall Hsplit Hlast Hstored. split_and!.
  - assert (fetch ≠ []) as Hnonempty by (rewrite Hsplit; apply split_not_nil).
    destruct (decode_serialized_example_recognized ex fetch true Hall Hnonempty)
      as (m & Hm & _ & Hbound).
    destruct (Hbound before "image/encoded" name after Hsplit Hlast)
      as (spec & Hspec & Hname).
    apply image_encoded_spec in Hspec as ->.
    exists m, (Tensor (DecodeJpeg (ParseDense ex "image/encoded" [] tf_string) 3)).
    split_and!; [exact Hm|exact Hname|reflexivity|reflexivity].
  - by apply preprocess_image_three_channels.
  - reflexivity.
Qed.

Lemma image_bytes_decoded_to_three_channels_witness :
  Forall (λ kn, recognized kn.1) sample_fetch
  ∧ sample_fetch
    = app [] (("image/encoded", "image")
              :: [("image/class/label", "label");
                  ("image/object/bbox/xmin", "xmin");
                  ("image/object/count", "count")])
  ∧ ("image" ∉ [("image/class/label", "label");
                ("image/object/bbox/xmin", "xmin");
                ("image/object/count", "count")].*2)
  ∧ (1 ≤ 4)%nat
  ∧ (∃ m img,
       decode_serialized_example sample_record sample_fetch true = Ok m
       ∧ m !! "image" = Some img
       ∧ decode_jpeg (Tensor (ParseDense sample_record "image/encoded" []
                                tf_string)) 3 = Ok img
       ∧ channels_of 4 img = Some 3)
  ∧ preprocess_image 299 299 [480; 640; 4] = Ok [299; 299; 3]
  ∧ preprocess_image 299 299 [480; 640] = Ok [299; 299; 3].
Proof.
  assert ("image" ∉ [("image/class/label", "label");
                     ("image/object/bbox/xmin", "xmin");
                     ("image/object/count", "count")].*2) as Hlast.
  { intros Hin. vm_compute in Hin.
    repeat (apply elem_of_cons in Hin as [Heq|Hin]; [discriminate Heq|]).
    by apply elem_of_nil in Hin. }
  split; [exact sample_fetch_recognized|]. split; [reflexivity|].
  split; [exact Hlast|]. split; [lia|].
  apply (image_bytes_decoded_to_three_channels sample_record sample_fetch []
           "image" _ 4 299 480 640 sample_fetch_recognized eq_refl Hlast).
  lia.
Defined.

End ImageChannels.

(** * Runs on concrete inputs *)

Section Runs.
Import DecodeExample DecodeSpec Exporter ExportSpec.

(** A name requested twice keeps the value of the later pair. *)
Example shared_name_keeps_last_pair :
  decode_serialized_example sample_record
    [("image/height", "size"); ("image/width", "size")] true
  = Ok {[ "size" := Tensor (ParseDense sample_record "image/width" [] int64) ]}.
Proof. vm_compute. reflexivity. Qed.

(** With decoding off the image bytes come back as parsed. *)
Example raw_image_bytes :
  decode_serialized_example sample_record [("image/encoded", "jpeg")] false
  = Ok {[ "jpeg" := Tensor (ParseDense sample_record "image/encoded" [] tf_string) ]}.
Proof. vm_compute. reflexivity. Qed.

(** A plain frozen-graph export from a checkpoint directory. *)
Example export_from_checkpoint_directory :
  (export quiet_env from_directory training_world).1 = Ok ()
  ∧ log (export quiet_env from_directory training_world).2
    = [ Makedirs "export" ∅; Restore "train/model.ckpt-399739";
        Makedirs "export/1" {["export"]};
        WriteFile "export/1/optimized_model.pb" ].
Proof. split; vm_compute; reflexivity. Qed.

(** Serving and coreml together, with a fixed batch size: the bundle is
    written, then line 358 reads [save_dir]. *)
Example serving_coreml_reads_unbound_save_dir :
  (export quiet_env serving_coreml empty_world).1
  = Raise (UnboundLocalError "save_dir")
  ∧ files_written (log (export quiet_env serving_coreml empty_world).2)
    = ["export/1/saved_model.pb"].
Proof. split; vm_compute; reflexivity. Qed.

(** A framework error while the graph is built leaves only the export
    directory behind. *)
Example graph_error_stops_export :
  let e := {| tf_raises := λ c, match c with
                                | BuildGraph => Some (FrameworkError "unknown model")
                                | _ => None
                                end;
              os_raises := os_raises quiet_env;
              made_with := made_with quiet_env;
              latest_checkpoint := latest_checkpoint quiet_env;
              tfcoreml_importable := true |} in
  (export e coreml_raveled empty_world).1 = Raise (FrameworkError "unknown model")
  ∧ log (export e coreml_raveled empty_world).2 = [Makedirs "export" ∅].
Proof. split; vm_compute; reflexivity. Qed.

(** An empty export directory: [os.makedirs] of line 73 raises, and the call
    ends there. *)
Example empty_export_dir_stops_export :
  (export strict_env into_empty_path training_world).1
  = Raise (OSError "[Errno 2] No such file or directory: ''")
  ∧ log (export strict_env into_empty_path training_world).2 = [].
Proof. split; vm_compute; reflexivity. Qed.

(** A version directory that is a regular file: line 312 finds it, line 314
    is skipped, and [open] of line 316 raises after the checkpoint is
    restored. *)
Example version_file_stops_export :
  let w := {| dirs := {["export"]}; files := {["export/1"]}; log := [] |} in
  (export strict_env under_a_file w).1
  = Raise (OSError "[Errno 20] Not a directory: 'export/1/optimized_model.pb'")
  ∧ log (export strict_env under_a_file w).2 = [Restore "model.ckpt-399739"].
Proof. split; vm_compute; reflexivity. Qed.

(** An export directory below a directory that is not there yet: line 73
    makes both, and a checkpoint path that names the parent is a directory
    by line 203. *)
Example made_parent_is_a_directory :
  (export strict_env into_nested_path empty_world).1
  = Raise (checkpoint_not_found "out")
  ∧ log (export strict_env into_nested_path empty_world).2
    = [Makedirs "out/models" {["out"]}].
Proof. split; vm_compute; reflexivity. Qed.

End Runs.

(** * More properties of the record decoder *)

Section DecoderMore.
Import DecodeExample DecodeSpec.

Implicit Types (fetch : list (string * string)) (ex : tensor).

Lemma build_feature_map_first_unrecognized before key name after fm :
  Forall (λ kn, recognized kn.1) before → schema !! key = None →
  build_feature_map (before ++ (key, name) :: after) fm = Raise (KeyError key).
Proof.
  revert fm. induction before as [|[k n] before IH]; intros fm Hbefore Hkey.
  - cbn [app build_feature_map]. unfold getitem. by rewrite Hkey.
  - apply Forall_cons in Hbefore as [[spec Hk] Hbefore].
    change ((k, n).1) with k in Hk.
    cbn [app build_feature_map]. unfold getitem. rewrite Hk.
    cbn [mbind result_bind]. by apply IH.
Qed.

(** The error names the first key of the request that the schema does not
    have, whatever the record and the flag are: the request is checked
    before the record is looked at. *)
Theorem keyerror_names_first_unrecognized_key
    ex fetch decode_image before key name after :
  fetch = before ++ (key, name) :: after →
  Forall (λ kn, recognized kn.1) before → ¬ recognized key →
  decode_serialized_example ex fetch decode_image = Raise (KeyError key).
Proof.
  intros -> Hbefore Hkey. unfold decode_serialized_example.
  rewrite build_feature_map_first_unrecognized; [reflexivity|exact Hbefore|].
  by apply eq_None_not_Some.
Qed.

Lemma keyerror_names_first_unrecognized_key_witness :
  [("image/height", "h"); ("image/depth", "d"); ("image/bogus", "b")]
  = app [("image/height", "h")] (("image/depth", "d") :: [("image/bogus", "b")])
  ∧ Forall (λ kn, recognized kn.1) [("image/height", "h")]
  ∧ ¬ recognized "image/depth"
  ∧ decode_serialized_example sample_record
      [("image/height", "h"); ("image/depth", "d"); ("image/bogus", "b")] false
    = Raise (KeyError "image/depth").
Proof.
  assert (Forall (λ kn, recognized kn.1) [("image/height", "h")]) as Hbefore.
  { repeat constructor. eexists. vm_compute. reflexivity. }
  assert (¬ recognized "image/depth") as Hkey.
  { intros [spec Hspec]. vm_compute in Hspec. discriminate Hspec. }
  split_and!; [reflexivity|exact Hbefore|exact Hkey|].
  apply (keyerror_names_first_unrecognized_key sample_record _ false
           [("image/height", "h")] "image/depth" "d" [("image/bogus", "b")]
           eq_refl Hbefore Hkey).
Defined.

Lemma returns_only_on_recognized ex fetch decode_image m :
  decode_serialized_example ex fetch decode_image = Ok m →
  Forall (λ kn, recognized kn.1) fetch.
Proof.
  intros Hm.
  destruct (decide (Forall (λ kn, recognized kn.1) fetch)) as [Hall|Hnot];
    [exact Hall|exfalso].
  apply not_Forall_Exists in Hnot; [|apply _].
  destruct (build_feature_map_unrecognized fetch ∅) as (key & Hraise & _).
  - eapply Exists_impl; [exact Hnot|]. intros [k n] Hk.
    by apply eq_None_not_Some.
  - unfold decode_serialized_example in Hm. rewrite Hraise in Hm.
    discriminate Hm.
Qed.

Lemma returns_only_on_nonempty ex fetch decode_image m :
  decode_serialized_example ex fetch decode_image = Ok m → fetch ≠ [].
Proof.
  intros Hm ->. rewrite decode_serialized_example_empty in Hm. discriminate Hm.
Qed.

(** Whenever the call returns, every requested output name is a key of the
    mapping it returns and nothing else is: the fall-through at the end of
    the [elif] chain is never taken. *)
Theorem returned_mapping_has_every_requested_name ex fetch decode_image m :
  decode_serialized_example ex fetch decode_image = Ok m →
  Forall (λ kn, recognized kn.1) fetch
  ∧ dom m = list_to_set fetch.*2
  ∧ ∀ key name, (key, name) ∈ fetch → is_Some (m !! name).
Proof.
  intros Hm. pose proof (returns_only_on_recognized _ _ _ _ Hm) as Hall.
  pose proof (returns_only_on_nonempty _ _ _ _ Hm) as Hnonempty.
  destruct (decode_serialized_example_recognized ex fetch decode_image Hall
              Hnonempty) as (m' & Hm' & Hdom & _).
  rewrite Hm in Hm'. injection Hm' as <-.
  split_and!; [exact Hall|exact Hdom|].
  intros key name Hin. apply elem_of_dom. rewrite Hdom.
  apply elem_of_list_to_set, list_elem_of_fmap. exists (key, name).
  split; [reflexivity|exact Hin].
Qed.

Lemma returned_mapping_has_every_requested_name_witness :
  decode_serialized_example sample_record
    [("image/width", "w"); ("image/object/id", "ids")] true
  = Ok (<["ids" := Tensor (ParseSparseValues sample_record "image/object/id" tf_string)]>
        {[ "w" := Tensor (ParseDense sample_record "image/width" [] int64) ]})
  ∧ Forall (λ kn, recognized kn.1) [("image/width", "w"); ("image/object/id", "ids")]
  ∧ dom (<["ids" := Tensor (ParseSparseValues sample_record "image/object/id" tf_string)]>
         ({[ "w" := Tensor (ParseDense sample_record "image/width" [] int64) ]}
          : gmap string value))
    = list_to_set [("image/width", "w"); ("image/object/id", "ids")].*2
  ∧ ∀ key name, (key, name) ∈ [("image/width", "w"); ("image/object/id", "ids")] →
      is_Some ((<["ids" := Tensor (ParseSparseValues sample_record "image/object/id"
                                     tf_string)]>
                ({[ "w" := Tensor (ParseDense sample_record "image/width" [] int64) ]}
                 : gmap string value)) !! name).
Proof.
  assert (decode_serialized_example sample_record
            [("image/width", "w"); ("image/object/id", "ids")] true
          = Ok (<["ids" := Tensor (ParseSparseValues sample_record "image/object/id"
                                     tf_string)]>
                {[ "w" := Tensor (ParseDense sample_record "image/width" [] int64) ]}))
    as Hrun.
  { vm_compute. reflexivity. }
  split; [exact Hrun|].
  apply (returned_mapping_has_every_requested_name _ _ _ _ Hrun).
Defined.

(** Only the requested fields are handed to [tf.parse_single_example]: for
    a request that is not empty, the feature map of lines 16-46 has the
    requested keys and no other, each with its slot of the schema, and the
    parse step returns a result with exactly these keys; a field that was
    not asked for is not parsed at all. *)
Theorem only_requested_fields_are_parsed ex fetch :
  Forall (λ kn, recognized kn.1) fetch → fetch ≠ [] →
  ∃ feature_map features,
    build_feature_map fetch ∅ = Ok feature_map
    ∧ dom feature_map = list_to_set fetch.*1
    ∧ feature_map ⊆ schema
    ∧ parse_single_example ex feature_map = Ok features
    ∧ dom features = list_to_set fetch.*1.
Proof.
  intros Hall Hnonempty.
  destruct (build_feature_map_recognized fetch ∅ Hall) as (fm & Hfm & Hlookup).
  assert (dom fm = list_to_set fetch.*1) as Hdom.
  { apply set_eq. intros key. rewrite elem_of_dom, Hlookup, elem_of_list_to_set.
    destruct (decide (key ∈ fetch.*1)) as [Hin|Hout].
    - split; [by intros _|intros _].
      apply list_elem_of_fmap in Hin as ([k n] & -> & Hin).
      exact (proj1 (Forall_forall _ _) Hall _ Hin).
    - rewrite lookup_empty. split; [by intros [? ?]|by intros ?]. }
  destruct (parse_single_example_returns ex fm) as [features Hparse].
  { intros Hempty. rewrite Hempty, dom_empty_L in Hdom.
    destruct fetch as [|[k n] rest]; [congruence|].
    rewrite fmap_cons, list_to_set_cons in Hdom.
    assert (k ∈ (∅ : gset string)) as Hk; [|by apply elem_of_empty in Hk].
    rewrite Hdom. apply elem_of_union_l, elem_of_singleton. reflexivity. }
  exists fm, features. split_and!; [exact Hfm|exact Hdom| |exact Hparse|].
  - apply map_subseteq_spec. intros key spec. rewrite Hlookup.
    destruct (decide (key ∈ fetch.*1)); [by intros ?|].
    rewrite lookup_empty. discriminate.
  - rewrite <- Hdom. apply set_eq. intros key.
    rewrite !elem_of_dom, (parse_single_example_lookup _ _ _ _ Hparse).
    destruct (fm !! key); cbn; split; intros [? ?]; eauto; discriminate.
Qed.

Lemma only_requested_fields_are_parsed_witness :
  Forall (λ kn, recognized kn.1) sample_fetch
  ∧ sample_fetch ≠ []
  ∧ ∃ feature_map features,
      build_feature_map sample_fetch ∅ = Ok feature_map
      ∧ dom feature_map = list_to_set sample_fetch.*1
      ∧ feature_map ⊆ schema
      ∧ parse_single_example sample_record feature_map = Ok features
      ∧ dom features = list_to_set sample_fetch.*1.
Proof.
  split; [exact sample_fetch_recognized|]. split; [exact sample_fetch_nonempty|].
  apply (only_requested_fields_are_parsed sample_record sample_fetch
           sample_fetch_recognized sample_fetch_nonempty).
Defined.

(** With distinct output names the order of the request does not matter. *)
Theorem request_order_is_irrelevant ex fetch fetch' decode_image :
  Forall (λ kn, recognized kn.1) fetch → NoDup fetch.*2 → fetch ≡ₚ fetch' →
  decode_serialized_example ex fetch' decode_image
  = decode_serialized_example ex fetch decode_image.
Proof.
  intros Hall Hnodup Hperm.
  destruct (decide (fetch = [])) as [->|Hnonempty].
  { by apply Permutation_nil_l in Hperm as ->. }
  assert (fetch' ≠ []) as Hnonempty'.
  { intros ->. by apply Permutation_nil_r in Hperm. }
  assert (Forall (λ kn, recognized kn.1) fetch') as Hall' by by rewrite <- Hperm.
  assert (NoDup fetch'.*2) as Hnodup' by by rewrite <- Hperm.
  destruct (decode_serialized_example_recognized ex fetch decode_image Hall
              Hnonempty) as (m & -> & Hdom & Hlast).
  destruct (decode_serialized_example_recognized ex fetch' decode_image Hall'
              Hnonempty') as (m' & -> & Hdom' & Hlast').
  f_equal. apply map_eq. intros name.
  destruct (decide (name ∈ fetch.*2)) as [Hin|Hout].
  - apply list_elem_of_fmap in Hin as ([key n] & -> & Hin).
    change ((key, n).2) with n.
    assert ((key, n) ∈ fetch') as Hin' by by rewrite <- Hperm.
    apply list_elem_of_split in Hin as (before & after & Hsplit).
    apply list_elem_of_split in Hin' as (before' & after' & Hsplit').
    destruct (Hlast before key n after Hsplit) as (spec & Hspec & ->).
    { rewrite Hsplit, fmap_app, fmap_cons in Hnodup.
      apply NoDup_app in Hnodup as (_ & _ & Hnodup).
      by apply NoDup_cons in Hnodup as [? _]. }
    destruct (Hlast' before' key n after' Hsplit') as (spec' & Hspec' & ->).
    { rewrite Hsplit', fmap_app, fmap_cons in Hnodup'.
      apply NoDup_app in Hnodup' as (_ & _ & Hnodup').
      by apply NoDup_cons in Hnodup' as [? _]. }
    congruence.
  - assert (name ∉ fetch'.*2) as Hout' by by rewrite <- Hperm.
    rewrite (proj1 (not_elem_of_dom m name)), (proj1 (not_elem_of_dom m' name));
      [reflexivity|..].
    + rewrite Hdom'. by rewrite elem_of_list_to_set.
    + rewrite Hdom. by rewrite elem_of_list_to_set.
Qed.

Lemma request_order_is_irrelevant_witness :
  Forall (λ kn, recognized kn.1) sample_fetch
  ∧ NoDup sample_fetch.*2
  ∧ sample_fetch ≡ₚ reverse sample_fetch
  ∧ decode_serialized_example sample_record (reverse sample_fetch) true
    = decode_serialized_example sample_record sample_fetch true.
Proof.
  assert (NoDup sample_fetch.*2) as Hnodup.
  { apply (bool_decide_unpack _). vm_compute. exact I. }
  assert (sample_fetch ≡ₚ reverse sample_fetch) as Hperm.
  { symmetry. apply reverse_Permutation. }
  split_and!; [exact sample_fetch_recognized|exact Hnodup|exact Hperm|].
  apply (request_order_is_irrelevant sample_record sample_fetch
           (reverse sample_fetch) true sample_fetch_recognized Hnodup Hperm).
Defined.

(** Requests compose: decoding two requests, neither of them empty, one
    after the other in one call gives the mapping of the second laid over
    the mapping of the first. *)
Theorem concatenated_requests_merge ex fetch1 fetch2 decode_image :
  Forall (λ kn, recognized kn.1) fetch1 → fetch1 ≠ [] →
  Forall (λ kn, recognized kn.1) fetch2 → fetch2 ≠ [] →
  ∃ m1 m2,
    decode_serialized_example ex fetch1 decode_image = Ok m1
    ∧ decode_serialized_example ex fetch2 decode_image = Ok m2
    ∧ decode_serialized_example ex (fetch1 ++ fetch2) decode_image = Ok (m2 ∪ m1).
Proof.
  intros Hall1 Hne1 Hall2 Hne2.
  assert (Forall (λ kn, recognized kn.1) (fetch1 ++ fetch2)) as Hall
    by by apply Forall_app.
  assert (fetch1 ++ fetch2 ≠ []) as Hne.
  { intros [? _]%app_eq_nil. contradiction. }
  destruct (decode_serialized_example_recognized ex fetch1 decode_image Hall1 Hne1)
    as (m1 & Hm1 & Hdom1 & Hlast1).
  destruct (decode_serialized_example_recognized ex fetch2 decode_image Hall2 Hne2)
    as (m2 & Hm2 & Hdom2 & Hlast2).
  destruct (decode_serialized_example_recognized ex _ decode_image Hall Hne)
    as (m & Hm & Hdom & Hlast).
  exists m1, m2. split_and!; [exact Hm1|exact Hm2|].
  rewrite Hm. f_equal. apply map_eq. intros name.
  destruct (decide (name ∈ fetch2.*2)) as [Hin2|Hout2].
  - destruct (last_pair_with_name fetch2 name Hin2)
      as (before & key & after & Hsplit & Hafter).
    destruct (Hlast2 before key name after Hsplit Hafter) as (spec & Hspec & Hv2).
    destruct (Hlast (fetch1 ++ before) key name after) as (spec' & Hspec' & ->).
    { by rewrite Hsplit, <- app_assoc. }
    { exact Hafter. }
    rewrite (lookup_union_Some_l _ _ _ _ Hv2). congruence.
  - assert (m2 !! name = None) as Hnone.
    { apply not_elem_of_dom. rewrite Hdom2. by rewrite elem_of_list_to_set. }
    rewrite lookup_union_r by exact Hnone.
    destruct (decide (name ∈ fetch1.*2)) as [Hin1|Hout1].
    + destruct (last_pair_with_name fetch1 name Hin1)
        as (before & key & after & Hsplit & Hafter).
      destruct (Hlast1 before key name after Hsplit Hafter) as (spec & Hspec & ->).
      destruct (Hlast before key name (after ++ fetch2)) as (spec' & Hspec' & ->).
      { by rewrite Hsplit, <- app_assoc. }
      { rewrite fmap_app. apply not_elem_of_app. split; assumption. }
      congruence.
    + rewrite (proj1 (not_elem_of_dom m name)), (proj1 (not_elem_of_dom m1 name));
        [reflexivity|..].
      * rewrite Hdom1. by rewrite elem_of_list_to_set.
      * rewrite Hdom, fmap_app, elem_of_list_to_set.
        apply not_elem_of_app. split; assumption.
Qed.

Lemma concatenated_requests_merge_witness :
  Forall (λ kn, recognized kn.1) sample_fetch
  ∧ sample_fetch ≠ []
  ∧ Forall (λ kn, recognized kn.1) [("image/width", "image")]
  ∧ [("image/width", "image")] ≠ []
  ∧ ∃ m1 m2,
      decode_serialized_example sample_record sample_fetch true = Ok m1
      ∧ decode_serialized_example sample_record [("image/width", "image")] true
        = Ok m2
      ∧ decode_serialized_example sample_record
          (sample_fetch ++ [("image/width", "image")]) true
        = Ok (m2 ∪ m1).
Proof.
  assert (Forall (λ kn, recognized kn.1) [("image/width", "image")]) as Hall2.
  { repeat constructor. eexists. vm_compute. reflexivity. }
  assert ([("image/width", "image")] ≠ []) as Hne2 by discriminate.
  split; [exact sample_fetch_recognized|]. split; [exact sample_fetch_nonempty|].
  split; [exact Hall2|]. split; [exact Hne2|].
  apply (concatenated_requests_merge sample_record sample_fetch
           [("image/width", "image")] true sample_fetch_recognized
           sample_fetch_nonempty Hall2 Hne2).
Defined.

Lemma fixed_length_slots_are_scalars key shape dt :
  schema !! key = Some (FixedLenFeature shape dt) → shape = [].
Proof.
  intros Hk. apply schema_lookup_items in Hk. unfold schema_items in Hk.
  repeat (apply elem_of_cons in Hk as [Hk|Hk];
    [first [discriminate Hk | injection Hk as _ -> _; reflexivity]|]).
  by apply elem_of_nil in Hk.
Qed.

(** Every value of the returned mapping is a dense tensor, never a sparse
    one: a scalar for a fixed-length slot, a vector for a variable-length
    slot, and a height x width x channels tensor for the decoded image. *)
Theorem returned_values_are_dense_tensors ex fetch decode_image m name v :
  decode_serialized_example ex fetch decode_image = Ok m →
  m !! name = Some v →
  ∃ t key spec,
    v = Tensor t ∧ (key, name) ∈ fetch ∧ schema !! key = Some spec
    ∧ rank t = match spec with
               | VarLenFeature _ => 1
               | FixedLenFeature _ _ =>
                   if decode_image && String.eqb key "image/encoded" then 3 else 0
               end.
Proof.
  intros Hm Hv. pose proof (returns_only_on_recognized _ _ _ _ Hm) as Hall.
  pose proof (returns_only_on_nonempty _ _ _ _ Hm) as Hnonempty.
  destruct (decode_serialized_example_recognized ex fetch decode_image Hall
              Hnonempty) as (m' & Hm' & Hdom & Hlast).
  rewrite Hm in Hm'. injection Hm' as <-.
  assert (name ∈ fetch.*2) as Hname.
  { apply (elem_of_list_to_set (C:=gset string)). rewrite <- Hdom.
    apply elem_of_dom. by eexists. }
  destruct (last_pair_with_name fetch name Hname)
    as (before & key & after & Hsplit & Hafter).
  destruct (Hlast before key name after Hsplit Hafter) as (spec & Hspec & Hval).
  rewrite Hv in Hval. injection Hval as ->.
  assert ((key, name) ∈ fetch) as Hin.
  { rewrite Hsplit. apply elem_of_app. right. apply list_elem_of_here. }
  destruct spec as [shape dt|dt].
  - pose proof (fixed_length_slots_are_scalars _ _ _ Hspec) as ->.
    unfold expected_value.
    destruct (decode_image && String.eqb key "image/encoded") eqn:Himg.
    + eexists _, key, _. split_and!; [reflexivity|exact Hin|exact Hspec|].
      by rewrite Himg.
    + eexists _, key, _. split_and!; [reflexivity|exact Hin|exact Hspec|].
      by rewrite Himg.
  - eexists _, key, _. split_and!; [reflexivity|exact Hin|exact Hspec|reflexivity].
Qed.

Lemma returned_values_are_dense_tensors_witness :
  decode_serialized_example sample_record [("image/encoded", "image")] true
  = Ok {[ "image" := Tensor (DecodeJpeg (ParseDense sample_record "image/encoded"
                                            [] tf_string) 3) ]}
  ∧ ({[ "image" := Tensor (DecodeJpeg (ParseDense sample_record "image/encoded"
                                          [] tf_string) 3) ]}
     : gmap string value) !! "image"
    = Some (Tensor (DecodeJpeg (ParseDense sample_record "image/encoded"
                                  [] tf_string) 3))
  ∧ ∃ t key spec,
      Tensor (DecodeJpeg (ParseDense sample_record "image/encoded" [] tf_string) 3)
      = Tensor t
      ∧ (key, "image") ∈ [("image/encoded", "image")]
      ∧ schema !! key = Some spec
      ∧ rank t = match spec with
                 | VarLenFeature _ => 1
                 | FixedLenFeature _ _ =>
                     if true && String.eqb key "image/encoded" then 3 else 0
                 end.
Proof.
  assert (decode_serialized_example sample_record [("image/encoded", "image")] true
          = Ok {[ "image" := Tensor (DecodeJpeg (ParseDense sample_record
                                       "image/encoded" [] tf_string) 3) ]}) as Hrun.
  { vm_compute. reflexivity. }
  assert (({[ "image" := Tensor (DecodeJpeg (ParseDense sample_record
                                   "image/encoded" [] tf_string) 3) ]}
           : gmap string value) !! "image"
          = Some (Tensor (DecodeJpeg (ParseDense sample_record "image/encoded"
                                        [] tf_string) 3))) as Hv.
  { vm_compute. reflexivity. }
  split; [exact Hrun|]. split; [exact Hv|].
  apply (returned_values_are_dense_tensors _ _ _ _ _ _ Hrun Hv).
Defined.

End DecoderMore.

(** * More properties of the exporter *)

Section ExporterMore.
Import Exporter ExportSpec MoreSpec.

Implicit Types (w : world) (evs : list event) (e : env) (a : args).

(** The run of [export] with the file system it leaves. *)
Lemma export_world e a w :
  ∃ evs, (export e a w).2 = foldl apply_event w evs
         ∧ export_outcome e a w (export e a w).1 evs.
Proof. apply export_spec. Qed.

Lemma files_foldl_apply_event w evs p :
  p ∈ files w → p ∈ files (foldl apply_event w evs).
Proof.
  revert w. induction evs as [|ev evs IH]; intros w Hp; cbn [foldl]; [exact Hp|].
  apply IH. destruct ev; cbn [apply_event files]; try exact Hp.
  apply elem_of_union_r, Hp.
Qed.

Lemma written_files_exist w evs p :
  p ∈ files_written evs → p ∈ files (foldl apply_event w evs).
Proof.
  revert w. induction evs as [|ev evs IH]; intros w Hp; cbn [foldl].
  - by apply elem_of_nil in Hp.
  - destruct ev; cbn [files_written omap] in Hp; try by apply IH.
    apply elem_of_cons in Hp as [->|Hp]; [|by apply IH].
    apply files_foldl_apply_event. cbn [apply_event files].
    apply elem_of_union_l, elem_of_singleton. reflexivity.
Qed.





Lemma expected_artifacts_NoDup a : NoDup (expected_artifacts a).
Proof.
  unfold expected_artifacts. destruct (export_for_serving a).
  { apply NoDup_singleton. }
  assert (frozen_graph_path a ≠ tflite_path a) as H1.
  { apply tflite_path_fresh. by left. }
  assert (frozen_graph_path a ≠ coreml_path a) as H2.
  { apply coreml_path_fresh. by left. }
  assert (tflite_path a ≠ coreml_path a) as H3.
  { apply coreml_path_fresh. by right; left. }
  destruct (export_tflite a), (export_coreml a); cbn [app];
    repeat (apply NoDup_cons; split;
            [rewrite ?elem_of_cons, elem_of_nil; intuition congruence|]);
    apply NoDup_nil_2.
Qed.

(** A call that returns has written exactly the files it was asked for, in
    the order frozen graph, tflite, coreml (or the serving bundle alone),
    each once; they are in the file system afterwards; and it has restored
    one checkpoint. *)
Theorem returned_export_wrote_expected_artifacts e a w :
  (export e a w).1 = Ok () →
  ∃ evs ckpt,
    log (export e a w).2 = log w ++ evs
    ∧ files_written evs = expected_artifacts a
    ∧ NoDup (files_written evs)
    ∧ Forall (λ p, p ∈ files (export e a w).2) (expected_artifacts a)
    ∧ checkpoints_restored evs = [ckpt].
Proof.
  intros Hok. destruct (export_world e a w) as (evs & Hw & Hout).
  assert (∃ ckpt, files_written evs = expected_artifacts a
                  ∧ checkpoints_restored evs = [ckpt]) as (ckpt & Hfiles & Hrestored).
  { rewrite Hok in Hout. clear Hok Hw. inversion Hout
      as [| | | | |pre ckpt l evb Hpre _ _ _ Hb Hcoreml
               |pre ckpt l evb r evc Hpre _ _ _ Hb Hcoreml Hc]; subst;
      destruct (prelude_writes_nothing _ _ _ _ Hpre) as [Hf Hr];
      rewrite ?files_written_app, ?checkpoints_restored_app, Hf, Hr, ?app_nil_l;
      apply branch_post_ok_files in Hb as [Hrb Hb]; exists ckpt;
      unfold expected_artifacts; rewrite Hcoreml.
    - destruct Hb as [(-> & _ & ->)|(-> & _ & -> & _)].
      + by split.
      + by rewrite app_nil_r.
    - destruct Hc as (Hrc & _ & _ & _ & dir & Hdir & Hfc).
      rewrite Hrb, Hrc, Hfc.
      destruct Hb as [(_ & -> & _)|(-> & -> & -> & _)]; [discriminate Hdir|].
      cbn [save_dir frozen_locals] in Hdir. injection Hdir as <-.
      split; [|reflexivity]. by destruct (export_tflite a). }
  exists evs, ckpt. split_and!.
  - rewrite Hw. apply log_foldl_apply_event.
  - exact Hfiles.
  - rewrite Hfiles. apply expected_artifacts_NoDup.
  - rewrite <- Hfiles, Hw. apply Forall_forall. intros p Hp.
    by apply written_files_exist.
  - exact Hrestored.
Qed.

Lemma returned_export_wrote_expected_artifacts_witness :
  (export quiet_env all_formats empty_world).1 = Ok ()
  ∧ ∃ evs ckpt,
      log (export quiet_env all_formats empty_world).2 = log empty_world ++ evs
      ∧ files_written evs = expected_artifacts all_formats
      ∧ NoDup (files_written evs)
      ∧ Forall (λ p, p ∈ files (export quiet_env all_formats empty_world).2)
               (expected_artifacts all_formats)
      ∧ checkpoints_restored evs = [ckpt].
Proof.
  assert ((export quiet_env all_formats empty_world).1 = Ok ()) as Hok.
  { vm_compute. reflexivity. }
  split; [exact Hok|].
  apply (returned_export_wrote_expected_artifacts quiet_env all_formats
           empty_world Hok).
Defined.

(** However a call ends, the files it has written are a beginning of the
    list it was asked for: nothing else is written, nothing is written
    twice, and no file is written before the ones that come first. *)
Theorem written_files_are_a_prefix_of_the_artifacts e a w :
  ∃ evs, log (export e a w).2 = log w ++ evs
         ∧ files_written evs `prefix_of` expected_artifacts a.
Proof.
  destruct (export_run e a w) as (evs & Hlog & Hout).
  exists evs. split; [exact Hlog|].
  destruct Hout as [x Hex Hos
                   |x pre Hpre _|x pre Hpre _ _|x pre ckpt Hpre _ _ _
                   |x pre ckpt evb Hpre _ _ _ Hb
                   |pre ckpt l evb Hpre _ _ _ Hb Hcoreml
                   |pre ckpt l evb r evc Hpre _ _ _ Hb Hcoreml Hc].
  { apply prefix_nil. }
  all: destruct (prelude_writes_nothing _ _ _ _ Hpre) as [Hf _];
    rewrite ?files_written_app, Hf, ?app_nil_l.
  1-3: apply prefix_nil.
  - unfold branch_post in Hb. unfold expected_artifacts.
    destruct (export_for_serving a).
    + destruct Hb as [-> _]. apply prefix_nil.
    + destruct Hb as [[-> |[-> _]] _]; [apply prefix_nil|].
      apply prefix_cons, prefix_nil.
  - apply branch_post_ok_files in Hb as [_ Hb].
    unfold expected_artifacts. rewrite Hcoreml.
    destruct Hb as [(-> & _ & ->)|(-> & _ & -> & _)]; [reflexivity|].
    by rewrite app_nil_r.
  - apply branch_post_ok_files in Hb as [_ Hb]. destruct Hc as [_ Hc].
    unfold expected_artifacts. rewrite Hcoreml.
    destruct Hb as [(-> & -> & ->)|(-> & -> & -> & _)].
    + assert (evc = []) as ->; [|by rewrite app_nil_r].
      cbn [save_dir serving_locals] in Hc. destruct r as [[]|x].
      * destruct Hc as (_ & _ & _ & dir & Hdir & _). discriminate Hdir.
      * destruct (tfcoreml_importable e); [|by destruct Hc].
        destruct (batch_size a); [|by destruct Hc].
        destruct (raveled_input a); by destruct Hc.
    + apply (prefix_app [frozen_graph_path a]).
      apply prefix_app. cbn [save_dir frozen_locals] in Hc.
      destruct r as [[]|x].
      * destruct Hc as (_ & _ & _ & dir & Hdir & ->). by injection Hdir as <-.
      * destruct (tfcoreml_importable e);
          [|destruct Hc as [_ ->]; apply prefix_nil].
        destruct (batch_size a); [|destruct Hc as [_ ->]; apply prefix_nil].
        destruct (raveled_input a); [destruct Hc as [_ ->]; apply prefix_nil|].
        destruct Hc as [[-> _]|[-> _]]; [apply prefix_nil|reflexivity].
Qed.

Ltac wp_go :=
  lazymatch goal with
  | |- wp (mbind _ _) _ _ => apply wp_bind
  | |- wp (mret _) _ _ => apply wp_ret
  | |- wp (raise _) _ _ => apply wp_raise
  | |- wp (call_tf _ _) _ _ => apply wp_call_tf; [intros ?|intros ? ?]
  | |- wp (framework_write _) _ _ => apply wp_framework_write
  | |- wp (emit (Convert _ _)) _ _ => apply wp_emit_convert
  | |- wp (py_assert _ _) _ _ => apply wp_py_assert; intros ?
  | |- wp (read_local _ _) _ _ => apply wp_read_local; [intros ? ?|intros ?]
  | |- wp (if _ then _ else _) _ _ => apply wp_if; intros ?
  end; cbn beta iota zeta.

(** The coreml step after the frozen-graph branch, when its three checks
    pass: every local it reads is bound, and it converts the frozen graph. *)
Lemma coreml_step_after_frozen_branch e a w :
  tfcoreml_importable e = true → batch_size a ≠ None → raveled_input a = false →
  tf_raises e CoremlConvert = None →
  wp (coreml_step e a (frozen_locals a)) w (λ r evs,
    r = Ok ()
    ∧ evs = [Convert (frozen_graph_path a) (coreml_path a); WriteFile (coreml_path a)]).
Proof.
  intros Himport Hbatch Hraveled Hconvert. unfold coreml_step.
  rewrite Himport, Hraveled. cbn [save_dir save_path input_node_names frozen_locals].
  repeat wp_go.
  all: cbn [app]; try congruence.
  all: repeat match goal with
       | H : Some _ = Some _ |- _ => injection H as <-
       end.
  all: try (split; reflexivity).
  all: exfalso;
       match goal with
       | H : bool_decide _ = false |- _ => apply bool_decide_eq_false in H; apply H
       end.
  - reflexivity.
  - exact Hbatch.
Qed.

Lemma isdir_after_prelude e a w pre :
  prelude e a w pre →
  checkpoint_path a ∈ dirs (foldl apply_event w pre) ↔ checkpoint_is_directory e a w.
Proof.
  unfold prelude, checkpoint_is_directory. intros [_ ->].
  destruct (bool_decide (export_dir a ∈ dirs w ∪ files w)) eqn:Hex.
  - apply bool_decide_eq_true in Hex. cbn [foldl]. split; [by left|].
    intros [?|[? _]]; [assumption|contradiction].
  - apply bool_decide_eq_false in Hex. cbn [foldl apply_event dirs].
    rewrite elem_of_union. split.
    + intros [Hmade|Hd]; [right; split; [exact Hex|exact Hmade]|left; exact Hd].
    + intros [Hd|[_ Hmade]]; [right; exact Hd|left; exact Hmade].
Qed.

Lemma resolved_ok_iff e a w pre r :
  prelude e a w pre → resolved e a w pre r →
  (∃ ckpt, r = Ok ckpt)
  ↔ (checkpoint_is_directory e a w →
     is_Some (latest_checkpoint e (checkpoint_path a))).
Proof.
  intros Hpre ->. pose proof (isdir_after_prelude e a w pre Hpre) as Hdir.
  case_bool_decide as Hd.
  - destruct (latest_checkpoint e (checkpoint_path a)) as [found|].
    + split; [by eauto|by eauto].
    + split; [intros [? ?]; discriminate|].
      intros Hsome. destruct Hsome as [? ?]; [by apply Hdir|discriminate].
  - split; [|by eauto]. intros _ Hyes. by apply Hdir in Hyes.
Qed.

(** Under [export_conditions] a call in which no call into the framework or
    the operating system raises runs to its end. *)
Lemma export_returns_under_conditions e a w :
  (∀ c, tf_raises e c = None) → os_calls_pass e a w → export_conditions e a w →
  wp (export e a) w (λ r evs, r = Ok ()).
Proof.
  intros Hquiet [Hready Hos] (Hckpt & Htflite & Hcoreml). unfold export.
  apply wp_bind, wp_path_exists. cbn beta iota.
  apply wp_bind.
  apply (wp_mono _ _ (λ r evs, r = Ok () ∧ prelude e a w evs)).
  2:{ unfold prelude. case_bool_decide as Hex.
      - apply wp_ret. by split.
      - apply wp_makedirs; [by intros _|].
        intros x Hx. exfalso. by apply (export_dir_not_ready e a w x). }
  intros r pre [-> Hpre]. cbn [app foldl].
  apply wp_bind, wp_call_tf; [intros _|intros x Hx; rewrite Hquiet in Hx; discriminate].
  cbn beta iota. apply wp_bind.
  eapply wp_mono; [|apply resolve_checkpoint_spec].
  intros rc evs [-> Hrc]. cbn beta.
  assert (resolved e a w pre rc) as Hres by exact Hrc. clear Hrc.
  destruct (proj2 (resolved_ok_iff _ _ _ _ _ Hpre Hres) Hckpt) as [ckpt ->].
  apply wp_bind, wp_call_tf; [intros _|intros x Hx; rewrite Hquiet in Hx; discriminate].
  cbn beta iota. apply wp_bind.
  apply (wp_mono _ _ (branch_post e a (foldl apply_event w pre) ckpt)).
  2:{ unfold branch_post. destruct (export_for_serving a);
      [apply serving_branch_spec|apply frozen_branch_spec]. }
  intros [l|x] evb Hb.
  - destruct (export_coreml a) eqn:Hc; [|by apply wp_ret].
    destruct (Hcoreml eq_refl) as (Hs & Himport & Hbatch & Hraveled).
    apply branch_post_ok_files in Hb as [_ [(? & _)|(_ & -> & _)]]; [congruence|].
    eapply wp_mono; [|by apply coreml_step_after_frozen_branch].
    by intros r evc [-> _].
  - exfalso.
    destruct (branch_post_raise_cause _ _ _ _ _ _ Hb Hquiet) as (_ & Hs & Ht & Hn).
    + intros Hs. by apply frozen_os_calls_pass_after, Hos.
    + by apply (Htflite Hs Ht).
Qed.

(** When no call into the framework or the operating system raises,
    [export_conditions] is exactly what it takes for a call to return: a
    checkpoint that can be found, a fixed batch size for tflite in
    frozen-graph mode, and for coreml frozen-graph mode, an importable
    converter, a fixed batch size and input that is not raveled. *)
Theorem export_returns_iff_conditions e a w :
  (∀ c, tf_raises e c = None) → os_calls_pass e a w →
  (export e a w).1 = Ok () ↔ export_conditions e a w.
Proof.
  intros Hquiet Hos. split.
  - intros Hok. destruct (export_run e a w) as (evs & _ & Hout).
    rewrite Hok in Hout. inversion Hout
      as [| | | | |pre ckpt l evb Hpre _ Hres _ Hb Hcoreml
               |pre ckpt l evb r evc Hpre _ Hres _ Hb Hcoreml Hc]; subst;
      apply branch_post_ok_files in Hb as [_ Hb];
      (split_and!;
       [apply (proj1 (resolved_ok_iff _ _ _ _ _ Hpre Hres)); by eexists
       |intros Hs Ht; destruct Hb as [(? & _)|(_ & _ & _ & Hfixed)];
          [congruence|by apply Hfixed]
       |]).
    + intros ?. congruence.
    + intros _. destruct Hc as (_ & Himport & Hbatch & Hraveled & dir & Hdir & _).
      destruct Hb as [(_ & -> & _)|(Hs & _)]; [discriminate Hdir|].
      by split_and!.
  - intros Hcond.
    destruct (export_returns_under_conditions e a w Hquiet Hos Hcond)
      as (evs & _ & Hok).
    exact Hok.
Qed.

Lemma quiet_env_os_calls_pass a w : os_calls_pass quiet_env a w.
Proof.
  split; [by right|]. intros _. split_and!; [by right|reflexivity|by intros _].
Qed.

Lemma export_returns_iff_conditions_witness :
  (∀ c, tf_raises quiet_env c = None)
  ∧ os_calls_pass quiet_env all_formats empty_world
  ∧ ((export quiet_env all_formats empty_world).1 = Ok ()
     ↔ export_conditions quiet_env all_formats empty_world).
Proof.
  split; [reflexivity|]. split; [apply quiet_env_os_calls_pass|].
  apply (export_returns_iff_conditions quiet_env all_formats empty_world).
  - reflexivity.
  - apply quiet_env_os_calls_pass.
Defined.

(** In serving mode the tflite flag is never looked at: the call does the
    same with it and without it. *)
Theorem serving_export_ignores_tflite_flag e a w (b : bool) :
  export_for_serving a = true →
  export e (with_tflite b a) w = export e a w.
Proof.
  intros Hserving. unfold export. cbn [with_tflite export_dir checkpoint_path
    export_for_serving export_coreml]. rewrite Hserving. reflexivity.
Qed.

Lemma serving_export_ignores_tflite_flag_witness :
  export_for_serving serving_tflite_without_batch = true
  ∧ export quiet_env (with_tflite false serving_tflite_without_batch) empty_world
    = export quiet_env serving_tflite_without_batch empty_world.
Proof.
  split; [reflexivity|].
  apply (serving_export_ignores_tflite_flag quiet_env serving_tflite_without_batch
           empty_world false eq_refl).
Defined.

(** A checkpoint path that is not a directory by line 203 is restored as it
    is given; what [tf.train.latest_checkpoint] would say plays no part.  It
    is restored when nothing before line 215 raises. *)
Theorem checkpoint_file_restored_as_given e a w :
  ¬ checkpoint_is_directory e a w →
  ∃ evs, log (export e a w).2 = log w ++ evs
    ∧ (checkpoints_restored evs = []
       ∨ checkpoints_restored evs = [checkpoint_path a])
    ∧ (export_dir_ready e a w →
       tf_raises e BuildGraph = None → tf_raises e CreateSession = None →
       tf_raises e InitVariables = None → tf_raises e RestoreCheckpoint = None →
       checkpoints_restored evs = [checkpoint_path a]).
Proof.
  intros Hfile.
  assert (∀ pre r, prelude e a w pre → resolved e a w pre r →
                   r = Ok (checkpoint_path a)) as Hgiven.
  { intros pre r Hpre ->. rewrite bool_decide_eq_false_2; [reflexivity|].
    intros Hd. by apply (isdir_after_prelude e a w pre Hpre) in Hd. }
  destruct (export_run e a w) as (evs & Hlog & Hout).
  exists evs. split; [exact Hlog|].
  destruct Hout as [x Hex Hos
                   |x pre Hpre Hg|x pre Hpre _ Hres|x pre ckpt Hpre _ Hres Hs
                   |x pre ckpt evb Hpre _ Hres _ Hb
                   |pre ckpt l evb Hpre _ Hres _ Hb _
                   |pre ckpt l evb r evc Hpre _ Hres _ Hb _ Hc].
  { split; [by left|]. intros Hready.
    by destruct (export_dir_not_ready _ _ _ _ Hex Hos). }
  all: destruct (prelude_writes_nothing _ _ _ _ Hpre) as [_ Hr];
    try (apply (Hgiven _ _ Hpre) in Hres; try discriminate Hres;
         injection Hres as ->);
    rewrite ?checkpoints_restored_app, Hr, ?app_nil_l.
  - split; [by left|]. intros; congruence.
  - split; [by left|]. intros; congruence.
  - apply branch_post_raise_files in Hb as (_ & Hrb & Hreach & _).
    split; [exact Hrb|]. intros _ _ _. exact Hreach.
  - apply branch_post_ok_files in Hb as [-> _]. by split; [right|].
  - apply branch_post_ok_files in Hb as [-> _]. destruct Hc as [-> _].
    by split; [right|].
Qed.

Lemma checkpoint_file_restored_as_given_witness :
  ¬ checkpoint_is_directory quiet_env tflite_without_batch training_world
  ∧ ∃ evs, log (export quiet_env tflite_without_batch training_world).2
           = log training_world ++ evs
    ∧ (checkpoints_restored evs = []
       ∨ checkpoints_restored evs = [checkpoint_path tflite_without_batch])
    ∧ (export_dir_ready quiet_env tflite_without_batch training_world →
       tf_raises quiet_env BuildGraph = None →
       tf_raises quiet_env CreateSession = None →
       tf_raises quiet_env InitVariables = None →
       tf_raises quiet_env RestoreCheckpoint = None →
       checkpoints_restored evs = [checkpoint_path tflite_without_batch]).
Proof.
  assert (¬ checkpoint_is_directory quiet_env tflite_without_batch training_world)
    as Hfile.
  { unfold checkpoint_is_directory. apply (bool_decide_unpack _).
    vm_compute. exact I. }
  split; [exact Hfile|].
  apply (checkpoint_file_restored_as_given quiet_env tflite_without_batch
           training_world Hfile).
Defined.

Lemma pretty_N_char_not_slash (x : N) :
  Ascii.eqb (pretty_N_char x) "/" = false.
Proof. unfold pretty_N_char. by repeat case_match. Qed.

Lemma pretty_N_go_not_slash (x : N) (s : string) :
  starts_with_slash s = false → starts_with_slash (pretty_N_go x s) = false.
Proof.
  revert s. induction (N.lt_wf_0 x) as [x _ IH]; intros s Hs.
  destruct (decide (0 < x)%N) as [Hpos|Hzero].
  - rewrite pretty_N_go_step by exact Hpos. apply IH.
    + by apply N.div_lt.
    + cbn [starts_with_slash]. apply pretty_N_char_not_slash.
  - assert (x = 0%N) as -> by lia. by rewrite pretty_N_go_0.
Qed.

(** ["%d" % version] never starts with a slash, so it never replaces the
    export directory in [os.path.join]. *)
Lemma pretty_version_not_slash (version : Z) :
  starts_with_slash (pretty version) = false.
Proof.
  assert (∀ p : positive, starts_with_slash (pretty p) = false) as Hpos.
  { intros p. unfold pretty, pretty_positive, pretty, pretty_N.
    case_decide; [reflexivity|]. by apply pretty_N_go_not_slash. }
  destruct version as [|p|p]; [reflexivity|apply Hpos|reflexivity].
Qed.

(** Exports into one directory under different version numbers go to
    different version directories. *)
Theorem distinct_versions_use_distinct_directories a (v v' : Z) :
  v ≠ v' →
  version_dir (with_export_version v a) ≠ version_dir (with_export_version v' a).
Proof.
  intros Hne Heq. apply Hne. apply (inj pretty).
  revert Heq. unfold version_dir, path_join.
  cbn [with_export_version export_dir export_version].
  rewrite !pretty_version_not_slash.
  destruct (String.eqb (export_dir a) "" || ends_with_slash (export_dir a));
    intros Heq.
  - by apply (inj (String.app (export_dir a))) in Heq.
  - apply (inj (String.app (export_dir a))) in Heq.
    by apply (inj (String.app "/")) in Heq.
Qed.

Lemma distinct_versions_use_distinct_directories_witness :
  (1 ≠ 2)%Z
  ∧ version_dir (with_export_version 1 all_formats)
    ≠ version_dir (with_export_version 2 all_formats).
Proof.
  split; [discriminate|].
  apply (distinct_versions_use_distinct_directories all_formats 1 2).
  discriminate.
Defined.

Lemma string_app_assoc (s1 s2 s3 : string) :
  (s1 +:+ s2) +:+ s3 = s1 +:+ s2 +:+ s3.
Proof.
  induction s1 as [|c s1 IH]; [reflexivity|].
  change (String c ((s1 +:+ s2) +:+ s3) = String c (s1 +:+ s2 +:+ s3)).
  by rewrite IH.
Qed.

Lemma ends_with_slash_snoc (s : string) : ends_with_slash (s +:+ "/") = true.
Proof.
  induction s as [|c s IH]; [reflexivity|].
  change (String c s +:+ "/") with (String c (s +:+ "/")).
  destruct (s +:+ "/") as [|c' rest] eqn:Hs; [by destruct s|exact IH].
Qed.

(** Writing the export directory with a slash at its end does not change
    where the files go. *)
Theorem trailing_slash_in_export_dir_is_harmless a :
  export_dir a ≠ "" → ends_with_slash (export_dir a) = false →
  let a' := with_export_dir (export_dir a +:+ "/") a in
  version_dir a' = version_dir a
  ∧ expected_artifacts a' = expected_artifacts a.
Proof.
  intros Hnonempty Hnoslash a'.
  assert (version_dir a' = version_dir a) as Hdir.
  { unfold version_dir, path_join, a'.
    cbn [with_export_dir export_dir export_version].
    rewrite pretty_version_not_slash, ends_with_slash_snoc, Hnoslash.
    rewrite orb_true_r.
    destruct (String.eqb_spec (export_dir a) ""); [contradiction|].
    cbn [orb]. apply string_app_assoc. }
  split; [exact Hdir|].
  unfold expected_artifacts, frozen_graph_path, tflite_path, coreml_path,
    bundle_path.
  rewrite Hdir. reflexivity.
Qed.

Lemma trailing_slash_in_export_dir_is_harmless_witness :
  export_dir all_formats ≠ ""
  ∧ ends_with_slash (export_dir all_formats) = false
  ∧ version_dir (with_export_dir (export_dir all_formats +:+ "/") all_formats)
    = version_dir all_formats
  ∧ expected_artifacts
      (with_export_dir (export_dir all_formats +:+ "/") all_formats)
    = expected_artifacts all_formats.
Proof.
  assert (export_dir all_formats ≠ "") as Hnonempty by discriminate.
  split; [exact Hnonempty|]. split; [reflexivity|].
  apply (trailing_slash_in_export_dir_is_harmless all_formats Hnonempty eq_refl).
Defined.

End ExporterMore.

(** * The rest of [export.py] *)

Section PreprocessMore.
Import Exporter.

Lemma grayscale_to_rgb_length shape out :
  grayscale_to_rgb shape = Ok out → length out = length shape.
Proof.
  unfold grayscale_to_rgb. destruct (reverse shape) as [|[|[|d]] outer] eqn:Hrev;
    try discriminate.
  intros [= <-]. rewrite <- (length_reverse shape), Hrev, length_reverse.
  reflexivity.
Qed.

Lemma expand_dims_length shape axis :
  (axis ≤ length shape)%nat → length (expand_dims shape axis) = S (length shape).
Proof.
  intros Haxis. unfold expand_dims.
  rewrite !length_app, length_take, length_drop. cbn [length]. lia.
Qed.

(** The channel cascade of lines 105-133 keeps the rank of the image. *)
Lemma preprocess_image_rank size_h size_w decoded out :
  preprocess_image size_h size_w decoded = Ok out →
  length decoded = 2%nat ∨ length decoded = 3%nat.
Proof.
  intros Hout.
  destruct (decide (length decoded = 2%nat)) as [?|Hnot2]; [by left|right].
  revert Hout. unfold preprocess_image.
  rewrite (proj2 (Nat.eqb_neq _ _) Hnot2).
  destruct (dim decoded 2) as [num_channels|] eqn:Hdim; [|discriminate].
  cbn [mbind result_bind].
  assert (3 ≤ length decoded)%nat as Hrank.
  { unfold dim in Hdim. destruct (decoded !! 2%nat) eqn:Hl; [|discriminate].
    apply lookup_lt_Some in Hl. lia. }
  destruct (if Nat.eqb num_channels 1 then grayscale_to_rgb decoded else Ok decoded)
    as [image1|] eqn:H1; [|discriminate].
  assert (length image1 = length decoded) as Hlen1.
  { destruct (Nat.eqb num_channels 1); [by apply grayscale_to_rgb_length|].
    by injection H1 as <-. }
  cbn [mbind result_bind].
  destruct (if Nat.eqb num_channels 2
            then ch ← slice_channel_0 image1; grayscale_to_rgb (expand_dims ch 2)
            else Ok image1) as [image2|] eqn:H2; [|discriminate].
  assert (length image2 = length decoded) as Hlen2.
  { destruct (Nat.eqb num_channels 2); [|injection H2 as <-; exact Hlen1].
    destruct (slice_channel_0 image1) as [ch|] eqn:Hch; [|discriminate].
    cbn [mbind result_bind] in H2. apply grayscale_to_rgb_length in H2.
    unfold slice_channel_0 in Hch.
    destruct image1 as [|h [|w [|[|c] rest]]]; try discriminate.
    injection Hch as <-. rewrite H2, expand_dims_length; cbn [length] in *; lia. }
  cbn [mbind result_bind].
  destruct (if Nat.ltb 3 num_channels then slice_first_3 image2 else Ok image2)
    as [image3|] eqn:H3; [|discriminate].
  assert (length image3 = length decoded) as Hlen3.
  { destruct (Nat.ltb 3 num_channels); [|injection H3 as <-; exact Hlen2].
    unfold slice_first_3 in H3.
    destruct image2 as [|h [|w [|c rest]]]; try discriminate.
    injection H3 as <-. exact Hlen2. }
  cbn [mbind result_bind].
  destruct (resize_bilinear (expand_dims image3 0) size_h size_w)
    as [resized|] eqn:Hresize; [|discriminate].
  intros _. unfold resize_bilinear in Hresize.
  pose proof (expand_dims_length image3 0 ltac:(lia)) as Hexp.
  destruct (expand_dims image3 0) as [|b [|h [|w [|c [|d rest]]]]];
    try discriminate.
  cbn [length] in Hexp. lia.
Qed.

(** [preprocess_image] returns only for a decoded image of rank 2 or 3 (a
    rank-4 animated image never gets through), and what it returns always
    has the configured height and width, with three channels unless the
    decoded image had none. *)
Theorem preprocess_image_returns_sized_images size_h size_w decoded out :
  preprocess_image size_h size_w decoded = Ok out →
  (∃ h w, decoded = [h; w] ∧ out = [size_h; size_w; 3])
  ∨ (∃ h w c, decoded = [h; w; c]
              ∧ out = [size_h; size_w; if Nat.eqb c 0 then 0 else 3]).
Proof.
  intros Hout. pose proof (preprocess_image_rank _ _ _ _ Hout) as Hrank.
  destruct decoded as [|h [|w [|c [|d rest]]]];
    try (destruct Hrank as [Hr|Hr]; cbn [length] in Hr; lia).
  - left. exists h, w. split; [reflexivity|].
    cbv in Hout. by injection Hout as <-.
  - right. exists h, w, c. split; [reflexivity|].
    destruct c as [|[|[|[|more]]]]; cbv in Hout; by injection Hout as <-.
Qed.

Lemma preprocess_image_returns_sized_images_witness :
  preprocess_image 299 299 [480; 640; 2] = Ok [299; 299; 3]
  ∧ ((∃ h w, [480; 640; 2] = [h; w] ∧ [299; 299; 3] = [299; 299; 3])
     ∨ (∃ h w c, [480; 640; 2] = [h; w; c]
                 ∧ [299; 299; 3] = [299; 299; if Nat.eqb c 0 then 0 else 3])).
Proof.
  assert (preprocess_image 299 299 [480; 640; 2] = Ok [299; 299; 3]) as Hrun.
  { vm_compute. reflexivity. }
  split; [exact Hrun|].
  apply (preprocess_image_returns_sized_images 299 299 [480; 640; 2]
           [299; 299; 3] Hrun).
Defined.

End PreprocessMore.

Section SignaturesMore.
Import Signatures.

(** Lines 234-262: the serving bundle always has the image-array signature,
    under its own name and as the default one; it has the image-bytes
    signature exactly when the preprocessing step is in the graph; and
    every signature takes its input under the name [images], uses the
    predict method and has the same outputs: the scores, and the classes
    exactly when they were asked for. *)
Theorem serving_signatures (add_preprocess_step output_classes : bool) :
  let m := signature_def_map add_preprocess_step output_classes in
  m !! DEFAULT_SERVING_SIGNATURE_DEF_KEY = m !! "predict_image_array"
  ∧ is_Some (m !! "predict_image_array")
  ∧ (is_Some (m !! "predict_image_bytes") ↔ add_preprocess_step = true)
  ∧ dom m
    = {[ DEFAULT_SERVING_SIGNATURE_DEF_KEY; "predict_image_array" ]}
      ∪ (if add_preprocess_step then {[ "predict_image_bytes" ]} else ∅)
  ∧ ∀ name sig, m !! name = Some sig →
      inputs sig
      = {[ "images" := build_tensor_info
                         (if String.eqb name "predict_image_bytes"
                          then image_bytes_placeholder else input_placeholder) ]}
      ∧ method_name sig = PREDICT_METHOD_NAME
      ∧ outputs sig = signature_def_outputs output_classes
      ∧ dom (outputs sig)
        = {[ "scores" ]} ∪ (if output_classes then {[ "classes" ]} else ∅).
Proof.
  intros m. subst m. unfold signature_def_map. cbn zeta.
  assert (dom (signature_def_outputs output_classes)
          = {[ "scores" ]} ∪ (if output_classes then {[ "classes" ]} else ∅))
    as Hout.
  { destruct output_classes; vm_compute; reflexivity. }
  split_and!.
  - destruct add_preprocess_step; by rewrite lookup_insert_eq, lookup_insert_ne,
      lookup_insert_eq.
  - destruct add_preprocess_step; rewrite lookup_insert_ne, lookup_insert_eq;
      by eauto.
  - destruct add_preprocess_step.
    + rewrite !lookup_insert_ne, lookup_insert_eq by discriminate.
      split; [reflexivity|by eauto].
    + rewrite !lookup_insert_ne, lookup_empty by discriminate.
      split; [by intros [? ?]|discriminate].
  - destruct add_preprocess_step; rewrite !dom_insert_L, ?dom_empty_L;
      set_solver.
  - intros name sig Hsig.
    apply lookup_insert_Some in Hsig as [[<- <-]|[_ Hsig]];
      [by split_and!|].
    apply lookup_insert_Some in Hsig as [[<- <-]|[_ Hsig]];
      [by split_and!|].
    destruct add_preprocess_step; [|by rewrite lookup_empty in Hsig].
    apply lookup_insert_Some in Hsig as [[<- <-]|[_ Hsig]];
      [by split_and!|by rewrite lookup_empty in Hsig].
Qed.

End SignaturesMore.

(** * The class names file *)

Section ClassNamesMore.
Import ClassNames MoreSpec.

Lemma all_chars_app P (s t : string) :
  all_chars P (s +:+ t) = all_chars P s && all_chars P t.
Proof.
  induction s as [|c s IH]; [reflexivity|].
  change (String c s +:+ t) with (String c (s +:+ t)).
  cbn [all_chars]. by rewrite IH, andb_assoc.
Qed.

Lemma all_chars_impl (P Q : ascii → bool) (s : string) :
  (∀ c, P c = true → Q c = true) → all_chars P s = true → all_chars Q s = true.
Proof.
  intros HPQ. induction s as [|c s IH]; [reflexivity|].
  cbn [all_chars]. intros [Hc Hs]%andb_prop.
  by rewrite (HPQ c Hc), (IH Hs).
Qed.

(** A line is cut off at its line feed. *)
Lemma file_lines_line (line rest : string) :
  all_chars (λ c, negb (is_newline c)) line = true →
  file_lines (line +:+ String "010" rest)
  = (line +:+ String "010" "") :: file_lines rest.
Proof.
  induction line as [|c line IH]; [reflexivity|].
  cbn [all_chars]. intros [Hc Hline]%andb_prop.
  change (String c line +:+ String "010" rest)
    with (String c (line +:+ String "010" rest)).
  cbn [file_lines]. apply negb_true_iff in Hc. rewrite Hc, (IH Hline).
  reflexivity.
Qed.

Lemma rstrip_whitespace (s : string) :
  all_chars is_whitespace s = true → rstrip s = "".
Proof.
  induction s as [|c s IH]; [reflexivity|].
  cbn [all_chars rstrip]. intros [Hc Hs]%andb_prop. by rewrite (IH Hs), Hc.
Qed.

(** White space at the end of a line is dropped. *)
Lemma rstrip_app_whitespace (s t : string) :
  all_chars is_whitespace t = true → rstrip (s +:+ t) = rstrip s.
Proof.
  intros Ht. induction s as [|c s IH]; [by apply rstrip_whitespace|].
  change (String c s +:+ t) with (String c (s +:+ t)).
  cbn [rstrip]. by rewrite IH.
Qed.

Lemma strip_padded_line (name pad : string) :
  clean_name name → padding pad →
  strip (name +:+ pad +:+ String "010" "") = name.
Proof.
  intros [Hstrip _] Hpad. unfold strip.
  rewrite rstrip_app_whitespace; [exact Hstrip|].
  rewrite all_chars_app. apply andb_true_intro. split; [|reflexivity].
  eapply all_chars_impl; [|exact Hpad]. by intros c [? _]%andb_prop.
Qed.

(** Lines 435-441 read back what a class-names file holds: one name per
    line, in order, without the padding and the line ends; an empty line
    gives an empty name and so keeps the later names at their index. *)
Theorem class_names_file_round_trip
    (read_file : string → option string) (path : string)
    (entries : list (string * string)) :
  read_file path = Some (class_names_file entries) →
  Forall (λ entry, clean_name entry.1 ∧ padding entry.2) entries →
  load_class_names read_file (Some path) = Loaded (Some entries.*1).
Proof.
  intros Hread Hentries. unfold load_class_names. rewrite Hread.
  do 2 f_equal. clear Hread.
  induction entries as [|[name pad] entries IH]; [reflexivity|].
  apply Forall_cons in Hentries as [[Hname Hpad] Hentries].
  change ((name, pad).1) with name in Hname.
  change ((name, pad).2) with pad in Hpad.
  cbn [class_names_file]. rewrite <- string_app_assoc.
  rewrite file_lines_line.
  - rewrite fmap_cons, (IH Hentries), fmap_cons. f_equal.
    rewrite string_app_assoc. by apply strip_padded_line.
  - rewrite all_chars_app. apply andb_true_intro. split; [apply Hname|].
    eapply all_chars_impl; [|exact Hpad]. by intros c [_ ?]%andb_prop.
Qed.

Lemma class_names_file_round_trip_witness :
  (λ path, if String.eqb path "class-codes.txt"
           then Some (class_names_file [("cat", ""); ("", "  "); ("dog", String "013" "")])
           else None) "class-codes.txt"
  = Some (class_names_file [("cat", ""); ("", "  "); ("dog", String "013" "")])
  ∧ Forall (λ entry, clean_name entry.1 ∧ padding entry.2)
           [("cat", ""); ("", "  "); ("dog", String "013" "")]
  ∧ load_class_names
      (λ path, if String.eqb path "class-codes.txt"
               then Some (class_names_file
                            [("cat", ""); ("", "  "); ("dog", String "013" "")])
               else None)
      (Some "class-codes.txt")
    = Loaded (Some [("cat", ""); ("", "  "); ("dog", String "013" "")].*1).
Proof.
  assert (Forall (λ entry, clean_name entry.1 ∧ padding entry.2)
            [("cat", ""); ("", "  "); ("dog", String "013" "")]) as Hentries.
  { repeat constructor. }
  split; [reflexivity|]. split; [exact Hentries|].
  apply (class_names_file_round_trip _ "class-codes.txt" _ eq_refl Hentries).
Defined.

End ClassNamesMore.
